(** * Query parameters and observer detection

    A shallow embedding of [observer.ts]: the duck-typed observer test
    ([isPartialObserver], [implementsAnyMethods]) and the [QueryParams]
    class with its transitions, predicates, accessors, filter selection and
    the two serializers ([getQueryObject] / [getMongoObject] for the wire,
    [toRestQueryStringParameters] for REST).

    JavaScript objects used as maps are [gmap string _]; the class is a
    record whose methods take the receiver [this] as first argument; a failed
    [assert] is the [AssertionError] case of [result]. *)

From stdpp Require Import gmap strings pretty.
From Stdlib Require Import ZArith.

Open Scope Z_scope.

(** ** JavaScript values *)

(** The values a parameter of type [AnyJs] / [unknown] can hold.  Numbers are
    the integer-valued ones; an object or a function carries the properties
    visible through it (own and inherited alike, which is what [in] and
    member access see). *)
#[local] Unset Elimination Schemes.
Inductive JsVal : Type :=
  | VUndefined
  | VNull
  | VBool (b : bool)
  | VNum (n : Z)
  | VStr (s : string)
  | VObject (props : gmap string JsVal)
  | VFunction (props : gmap string JsVal).
#[local] Set Elimination Schemes.

(** [typeof v] *)
Definition typeof (v : JsVal) : string :=
  match v with
  | VUndefined => "undefined"
  | VNull => "object"
  | VBool _ => "boolean"
  | VNum _ => "number"
  | VStr _ => "string"
  | VObject _ => "object"
  | VFunction _ => "function"
  end.

(** [v === null] *)
Definition is_null (v : JsVal) : bool :=
  match v with VNull => true | _ => false end.

(** [v === undefined] *)
Definition is_undefined (v : JsVal) : bool :=
  match v with VUndefined => true | _ => false end.

Definition js_props (v : JsVal) : gmap string JsVal :=
  match v with
  | VObject props | VFunction props => props
  | _ => ∅
  end.

(** [name in object] *)
Definition js_in (name : string) (object : JsVal) : bool :=
  bool_decide (is_Some (js_props object !! name)).

(** [object[name]]: a missing member reads as [undefined]. *)
Definition js_get (object : JsVal) (name : string) : JsVal :=
  default VUndefined (js_props object !! name).

(** ** Observer detection *)

(** The [for (const method of methods)] loop of [implementsAnyMethods], run on
    a value already known to be an object. *)
Fixpoint implementsAnyMethods_loop (object : JsVal) (methods : list string) : bool :=
  match methods with
  | [] => false
  | method :: rest =>
      if js_in method object && bool_decide (typeof (js_get object method) = "function")
      then true
      else implementsAnyMethods_loop object rest
  end.

Definition implementsAnyMethods (obj : JsVal) (methods : list string) : bool :=
  if negb (bool_decide (typeof obj = "object")) || is_null obj
  then false
  else implementsAnyMethods_loop obj methods.

Definition isPartialObserver (obj : JsVal) : bool :=
  implementsAnyMethods obj ["next"; "error"; "complete"].

(** ** Assertions *)

Inductive result (A : Type) : Type :=
  | Ok (a : A)
  | AssertionError (message : string).
Arguments Ok {A} a.
Arguments AssertionError {A} message.

#[global] Instance result_ret : MRet result := λ A a, Ok a.
#[global] Instance result_bind : MBind result := λ A B k r,
  match r with
  | Ok a => k a
  | AssertionError message => AssertionError message
  end.

(** [assert(condition, message)] of [@firebase/util]. *)
Definition assert (condition : bool) (message : string) : result unit :=
  if condition then Ok tt else AssertionError message.

Definition succeeds {A} (r : result A) : Prop := ∃ a, r = Ok a.
Definition fails {A} (r : result A) : Prop := ∃ message, r = AssertionError message.

(** ** Imported constants and capabilities *)

(** Modelled from the spec: the ordering index is one of a small fixed set of
    well-known index capabilities (by priority, by value, by key, or by an
    arbitrary child path); the index classes themselves are imported.  The
    three first are singletons, so [===] against them is equality here. *)
Inductive Index : Type :=
  | PRIORITY_INDEX
  | VALUE_INDEX
  | KEY_INDEX
  | PathIndex (indexPath : string).

#[global] Instance Index_eq_dec : EqDecision Index.
Proof. solve_decision. Defined.

(** [index instanceof PathIndex] *)
Definition instanceof_PathIndex (index : Index) : bool :=
  match index with PathIndex _ => true | _ => false end.

(** Modelled from the spec: the canonical string form of an index. *)
Definition Index_toString (index : Index) : string :=
  match index with
  | PRIORITY_INDEX => ".priority"
  | VALUE_INDEX => ".value"
  | KEY_INDEX => ".key"
  | PathIndex indexPath => indexPath
  end.

(** Modelled from the spec: the domain's minimum and maximum sentinels for
    tie-break keys, imported from [../util/util]. *)
Definition MIN_NAME : string := "[MIN_NAME]".
Definition MAX_NAME : string := "[MAX_NAME]".

(** ** The descriptor *)

(** A value of type [string | null], possibly omitted ([undefined]): the [key]
    argument of [startAt] / [endAt] and what the name fields hold. *)
Inductive Key : Type :=
  | KeyUndefined
  | KeyNull
  | KeyString (s : string).

Definition Key_value (key : Key) : JsVal :=
  match key with
  | KeyUndefined => VUndefined
  | KeyNull => VNull
  | KeyString s => VStr s
  end.

Record QueryParams : Type := mkQueryParams {
  limitSet_ : bool;
  startSet_ : bool;
  startNameSet_ : bool;
  endSet_ : bool;
  endNameSet_ : bool;
  findSet_ : bool;
  aggregateSet_ : bool;
  limit_ : Z;
  viewFrom_ : string;
  indexStartValue_ : JsVal;
  indexStartName_ : Key;
  indexEndValue_ : JsVal;
  indexEndName_ : Key;
  findFilter_ : JsVal;
  findOption_ : JsVal;
  aggregatePipeline_ : JsVal;
  index_ : Index
}.

(** [new QueryParams()]: the field initialisers of the class. *)
Definition new_QueryParams : QueryParams :=
  {| limitSet_ := false;
     startSet_ := false;
     startNameSet_ := false;
     endSet_ := false;
     endNameSet_ := false;
     findSet_ := false;
     aggregateSet_ := false;
     limit_ := 0;
     viewFrom_ := "";
     indexStartValue_ := VNull;
     indexStartName_ := KeyString "";
     indexEndValue_ := VNull;
     indexEndName_ := KeyString "";
     findFilter_ := VNull;
     findOption_ := VNull;
     aggregatePipeline_ := VNull;
     index_ := PRIORITY_INDEX |}.

(** Field assignments [q.f = v]. *)
Definition set_limitSet_ (v : bool) (q : QueryParams) : QueryParams :=
  let '(mkQueryParams _ a2 a3 a4 a5 a6 a7 a8 a9 a10 a11 a12 a13 a14 a15 a16 a17) := q in
  mkQueryParams v a2 a3 a4 a5 a6 a7 a8 a9 a10 a11 a12 a13 a14 a15 a16 a17.
Definition set_startSet_ (v : bool) (q : QueryParams) : QueryParams :=
  let '(mkQueryParams a1 _ a3 a4 a5 a6 a7 a8 a9 a10 a11 a12 a13 a14 a15 a16 a17) := q in
  mkQueryParams a1 v a3 a4 a5 a6 a7 a8 a9 a10 a11 a12 a13 a14 a15 a16 a17.
Definition set_startNameSet_ (v : bool) (q : QueryParams) : QueryParams :=
  let '(mkQueryParams a1 a2 _ a4 a5 a6 a7 a8 a9 a10 a11 a12 a13 a14 a15 a16 a17) := q in
  mkQueryParams a1 a2 v a4 a5 a6 a7 a8 a9 a10 a11 a12 a13 a14 a15 a16 a17.
Definition set_endSet_ (v : bool) (q : QueryParams) : QueryParams :=
  let '(mkQueryParams a1 a2 a3 _ a5 a6 a7 a8 a9 a10 a11 a12 a13 a14 a15 a16 a17) := q in
  mkQueryParams a1 a2 a3 v a5 a6 a7 a8 a9 a10 a11 a12 a13 a14 a15 a16 a17.
Definition set_endNameSet_ (v : bool) (q : QueryParams) : QueryParams :=
  let '(mkQueryParams a1 a2 a3 a4 _ a6 a7 a8 a9 a10 a11 a12 a13 a14 a15 a16 a17) := q in
  mkQueryParams a1 a2 a3 a4 v a6 a7 a8 a9 a10 a11 a12 a13 a14 a15 a16 a17.
Definition set_findSet_ (v : bool) (q : QueryParams) : QueryParams :=
  let '(mkQueryParams a1 a2 a3 a4 a5 _ a7 a8 a9 a10 a11 a12 a13 a14 a15 a16 a17) := q in
  mkQueryParams a1 a2 a3 a4 a5 v a7 a8 a9 a10 a11 a12 a13 a14 a15 a16 a17.
Definition set_aggregateSet_ (v : bool) (q : QueryParams) : QueryParams :=
  let '(mkQueryParams a1 a2 a3 a4 a5 a6 _ a8 a9 a10 a11 a12 a13 a14 a15 a16 a17) := q in
  mkQueryParams a1 a2 a3 a4 a5 a6 v a8 a9 a10 a11 a12 a13 a14 a15 a16 a17.
Definition set_limit_ (v : Z) (q : QueryParams) : QueryParams :=
  let '(mkQueryParams a1 a2 a3 a4 a5 a6 a7 _ a9 a10 a11 a12 a13 a14 a15 a16 a17) := q in
  mkQueryParams a1 a2 a3 a4 a5 a6 a7 v a9 a10 a11 a12 a13 a14 a15 a16 a17.
Definition set_viewFrom_ (v : string) (q : QueryParams) : QueryParams :=
  let '(mkQueryParams a1 a2 a3 a4 a5 a6 a7 a8 _ a10 a11 a12 a13 a14 a15 a16 a17) := q in
  mkQueryParams a1 a2 a3 a4 a5 a6 a7 a8 v a10 a11 a12 a13 a14 a15 a16 a17.
Definition set_indexStartValue_ (v : JsVal) (q : QueryParams) : QueryParams :=
  let '(mkQueryParams a1 a2 a3 a4 a5 a6 a7 a8 a9 _ a11 a12 a13 a14 a15 a16 a17) := q in
  mkQueryParams a1 a2 a3 a4 a5 a6 a7 a8 a9 v a11 a12 a13 a14 a15 a16 a17.
Definition set_indexStartName_ (v : Key) (q : QueryParams) : QueryParams :=
  let '(mkQueryParams a1 a2 a3 a4 a5 a6 a7 a8 a9 a10 _ a12 a13 a14 a15 a16 a17) := q in
  mkQueryParams a1 a2 a3 a4 a5 a6 a7 a8 a9 a10 v a12 a13 a14 a15 a16 a17.
Definition set_indexEndValue_ (v : JsVal) (q : QueryParams) : QueryParams :=
  let '(mkQueryParams a1 a2 a3 a4 a5 a6 a7 a8 a9 a10 a11 _ a13 a14 a15 a16 a17) := q in
  mkQueryParams a1 a2 a3 a4 a5 a6 a7 a8 a9 a10 a11 v a13 a14 a15 a16 a17.
Definition set_indexEndName_ (v : Key) (q : QueryParams) : QueryParams :=
  let '(mkQueryParams a1 a2 a3 a4 a5 a6 a7 a8 a9 a10 a11 a12 _ a14 a15 a16 a17) := q in
  mkQueryParams a1 a2 a3 a4 a5 a6 a7 a8 a9 a10 a11 a12 v a14 a15 a16 a17.
Definition set_findFilter_ (v : JsVal) (q : QueryParams) : QueryParams :=
  let '(mkQueryParams a1 a2 a3 a4 a5 a6 a7 a8 a9 a10 a11 a12 a13 _ a15 a16 a17) := q in
  mkQueryParams a1 a2 a3 a4 a5 a6 a7 a8 a9 a10 a11 a12 a13 v a15 a16 a17.
Definition set_findOption_ (v : JsVal) (q : QueryParams) : QueryParams :=
  let '(mkQueryParams a1 a2 a3 a4 a5 a6 a7 a8 a9 a10 a11 a12 a13 a14 _ a16 a17) := q in
  mkQueryParams a1 a2 a3 a4 a5 a6 a7 a8 a9 a10 a11 a12 a13 a14 v a16 a17.
Definition set_aggregatePipeline_ (v : JsVal) (q : QueryParams) : QueryParams :=
  let '(mkQueryParams a1 a2 a3 a4 a5 a6 a7 a8 a9 a10 a11 a12 a13 a14 a15 _ a17) := q in
  mkQueryParams a1 a2 a3 a4 a5 a6 a7 a8 a9 a10 a11 a12 a13 a14 a15 v a17.
Definition set_index_ (v : Index) (q : QueryParams) : QueryParams :=
  let '(mkQueryParams a1 a2 a3 a4 a5 a6 a7 a8 a9 a10 a11 a12 a13 a14 a15 a16 _) := q in
  mkQueryParams a1 a2 a3 a4 a5 a6 a7 a8 a9 a10 a11 a12 a13 a14 a15 a16 v.

(** [WIRE_PROTOCOL_CONSTANTS_] *)
Module WIRE_PROTOCOL_CONSTANTS.
Definition INDEX_START_VALUE : string := "sp".
Definition INDEX_START_NAME : string := "sn".
Definition INDEX_END_VALUE : string := "ep".
Definition INDEX_END_NAME : string := "en".
Definition LIMIT : string := "l".
Definition VIEW_FROM : string := "vf".
Definition VIEW_FROM_LEFT : string := "l".
Definition VIEW_FROM_RIGHT : string := "r".
Definition INDEX : string := "i".
Definition FIND_FILTER : string := "f".
Definition FIND_OPTION : string := "p".
Definition AGGREGATE_PIPELINE : string := "a".
End WIRE_PROTOCOL_CONSTANTS.

(** [REST_QUERY_CONSTANTS_] *)
Module REST_CONSTANTS.
Definition ORDER_BY : string := "orderBy".
Definition PRIORITY_INDEX : string := "$priority".
Definition VALUE_INDEX : string := "$value".
Definition KEY_INDEX : string := "$key".
Definition START_AT : string := "startAt".
Definition END_AT : string := "endAt".
Definition LIMIT_TO_FIRST : string := "limitToFirst".
Definition LIMIT_TO_LAST : string := "limitToLast".
End REST_CONSTANTS.

(** [QueryParams.DEFAULT] *)
Definition DEFAULT : QueryParams := new_QueryParams.

(** *** Predicates and accessors *)

Definition hasStart (this : QueryParams) : bool := startSet_ this.

Definition isViewFromLeft (this : QueryParams) : bool :=
  if bool_decide (viewFrom_ this = "")
  then startSet_ this
  else bool_decide (viewFrom_ this = WIRE_PROTOCOL_CONSTANTS.VIEW_FROM_LEFT).

Definition getIndexStartValue (this : QueryParams) : result JsVal :=
  assert (startSet_ this) "Only valid if start has been set" ;;
  Ok (indexStartValue_ this).

Definition getIndexStartName (this : QueryParams) : result Key :=
  assert (startSet_ this) "Only valid if start has been set" ;;
  if startNameSet_ this then Ok (indexStartName_ this) else Ok (KeyString MIN_NAME).

Definition hasEnd (this : QueryParams) : bool := endSet_ this.

Definition hasMongo (this : QueryParams) : bool :=
  findSet_ this || aggregateSet_ this.

Definition getIndexEndValue (this : QueryParams) : result JsVal :=
  assert (endSet_ this) "Only valid if end has been set" ;;
  Ok (indexEndValue_ this).

Definition getIndexEndName (this : QueryParams) : result Key :=
  assert (endSet_ this) "Only valid if end has been set" ;;
  if endNameSet_ this then Ok (indexEndName_ this) else Ok (KeyString MAX_NAME).

Definition hasLimit (this : QueryParams) : bool := limitSet_ this.

Definition hasAnchoredLimit (this : QueryParams) : bool :=
  limitSet_ this && negb (bool_decide (viewFrom_ this = "")).

Definition getLimit (this : QueryParams) : result Z :=
  assert (limitSet_ this) "Only valid if limit has been set" ;;
  Ok (limit_ this).

Definition getIndex (this : QueryParams) : Index := index_ this.

(** *** Transitions *)

(** [copy_]: a fresh instance, then one assignment per copied field, in the
    order of the source. *)
Definition copy_ (this : QueryParams) : QueryParams :=
  let copy := new_QueryParams in
  let copy := set_limitSet_ (limitSet_ this) copy in
  let copy := set_limit_ (limit_ this) copy in
  let copy := set_startSet_ (startSet_ this) copy in
  let copy := set_indexStartValue_ (indexStartValue_ this) copy in
  let copy := set_startNameSet_ (startNameSet_ this) copy in
  let copy := set_findSet_ (findSet_ this) copy in
  let copy := set_indexStartName_ (indexStartName_ this) copy in
  let copy := set_endSet_ (endSet_ this) copy in
  let copy := set_indexEndValue_ (indexEndValue_ this) copy in
  let copy := set_endNameSet_ (endNameSet_ this) copy in
  let copy := set_indexEndName_ (indexEndName_ this) copy in
  let copy := set_index_ (index_ this) copy in
  let copy := set_viewFrom_ (viewFrom_ this) copy in
  let copy := set_findFilter_ (findFilter_ this) copy in
  let copy := set_findOption_ (findOption_ this) copy in
  let copy := set_aggregatePipeline_ (aggregatePipeline_ this) copy in
  copy.

(** An omitted optional argument is [VUndefined]. *)
Definition find (this : QueryParams) (filter option : JsVal) : QueryParams :=
  let newParams := copy_ this in
  let filter := if is_undefined filter then VNull else filter in
  let option := if is_undefined option then VNull else option in
  let newParams := set_findSet_ true newParams in
  let newParams := set_findFilter_ filter newParams in
  let newParams := set_findOption_ option newParams in
  newParams.

Definition aggregate (this : QueryParams) (pipeline : JsVal) : QueryParams :=
  let newParams := copy_ this in
  let pipeline := if is_undefined pipeline then VNull else pipeline in
  let newParams := set_aggregateSet_ true newParams in
  let newParams := set_aggregatePipeline_ pipeline newParams in
  newParams.

Definition limit (this : QueryParams) (newLimit : Z) : QueryParams :=
  let newParams := copy_ this in
  let newParams := set_limitSet_ true newParams in
  let newParams := set_limit_ newLimit newParams in
  let newParams := set_viewFrom_ "" newParams in
  newParams.

Definition limitToFirst (this : QueryParams) (newLimit : Z) : QueryParams :=
  let newParams := copy_ this in
  let newParams := set_limitSet_ true newParams in
  let newParams := set_limit_ newLimit newParams in
  let newParams := set_viewFrom_ WIRE_PROTOCOL_CONSTANTS.VIEW_FROM_LEFT newParams in
  newParams.

Definition limitToLast (this : QueryParams) (newLimit : Z) : QueryParams :=
  let newParams := copy_ this in
  let newParams := set_limitSet_ true newParams in
  let newParams := set_limit_ newLimit newParams in
  let newParams := set_viewFrom_ WIRE_PROTOCOL_CONSTANTS.VIEW_FROM_RIGHT newParams in
  newParams.

(** [key != null]: neither [null] nor [undefined]. *)
Definition loosely_not_null (key : Key) : bool :=
  match key with KeyString _ => true | KeyNull | KeyUndefined => false end.

(** [key !== undefined] *)
Definition strictly_not_undefined (key : Key) : bool :=
  match key with KeyUndefined => false | KeyNull | KeyString _ => true end.

Definition startAt (this : QueryParams) (indexValue : JsVal) (key : Key) : QueryParams :=
  let newParams := copy_ this in
  let newParams := set_startSet_ true newParams in
  let indexValue := if is_undefined indexValue then VNull else indexValue in
  let newParams := set_indexStartValue_ indexValue newParams in
  if loosely_not_null key then
    let newParams := set_startNameSet_ true newParams in
    let newParams := set_indexStartName_ key newParams in
    newParams
  else
    let newParams := set_startNameSet_ false newParams in
    let newParams := set_indexStartName_ (KeyString "") newParams in
    newParams.

Definition endAt (this : QueryParams) (indexValue : JsVal) (key : Key) : QueryParams :=
  let newParams := copy_ this in
  let newParams := set_endSet_ true newParams in
  let indexValue := if is_undefined indexValue then VNull else indexValue in
  let newParams := set_indexEndValue_ indexValue newParams in
  if strictly_not_undefined key then
    let newParams := set_endNameSet_ true newParams in
    let newParams := set_indexEndName_ key newParams in
    newParams
  else
    let newParams := set_endNameSet_ false newParams in
    let newParams := set_indexEndName_ (KeyString "") newParams in
    newParams.

Definition orderBy (this : QueryParams) (index : Index) : QueryParams :=
  let newParams := copy_ this in
  let newParams := set_index_ index newParams in
  newParams.

(** *** Wire format *)

Definition getMongoObject (this : QueryParams) : gmap string JsVal :=
  let obj : gmap string JsVal := ∅ in
  let obj :=
    if findSet_ this then
      let obj := <[WIRE_PROTOCOL_CONSTANTS.FIND_FILTER := findFilter_ this]> obj in
      let obj := <[WIRE_PROTOCOL_CONSTANTS.FIND_OPTION := findOption_ this]> obj in
      obj
    else obj in
  let obj :=
    if aggregateSet_ this then
      <[WIRE_PROTOCOL_CONSTANTS.AGGREGATE_PIPELINE := aggregatePipeline_ this]> obj
    else obj in
  obj.

Definition getQueryObject (this : QueryParams) : gmap string JsVal :=
  let obj : gmap string JsVal := ∅ in
  let obj :=
    if startSet_ this then
      let obj := <[WIRE_PROTOCOL_CONSTANTS.INDEX_START_VALUE := indexStartValue_ this]> obj in
      if startNameSet_ this then
        <[WIRE_PROTOCOL_CONSTANTS.INDEX_START_NAME := Key_value (indexStartName_ this)]> obj
      else obj
    else obj in
  let obj :=
    if endSet_ this then
      let obj := <[WIRE_PROTOCOL_CONSTANTS.INDEX_END_VALUE := indexEndValue_ this]> obj in
      if endNameSet_ this then
        <[WIRE_PROTOCOL_CONSTANTS.INDEX_END_NAME := Key_value (indexEndName_ this)]> obj
      else obj
    else obj in
  let obj :=
    if limitSet_ this then
      let obj := <[WIRE_PROTOCOL_CONSTANTS.LIMIT := VNum (limit_ this)]> obj in
      let viewFrom := viewFrom_ this in
      let viewFrom :=
        if bool_decide (viewFrom = "") then
          if isViewFromLeft this
          then WIRE_PROTOCOL_CONSTANTS.VIEW_FROM_LEFT
          else WIRE_PROTOCOL_CONSTANTS.VIEW_FROM_RIGHT
        else viewFrom in
      <[WIRE_PROTOCOL_CONSTANTS.VIEW_FROM := VStr viewFrom]> obj
    else obj in
  let obj :=
    if negb (bool_decide (index_ this = PRIORITY_INDEX)) then
      <[WIRE_PROTOCOL_CONSTANTS.INDEX := VStr (Index_toString (index_ this))]> obj
    else obj in
  obj.

(** *** Filter selection *)

Definition loadsAllData (this : QueryParams) : bool :=
  negb (startSet_ this || endSet_ this || limitSet_ this)
  && negb (findSet_ this)
  && negb (aggregateSet_ this).

Definition isDefault (this : QueryParams) : bool :=
  loadsAllData this && bool_decide (index_ this = PRIORITY_INDEX).

(** Modelled from the spec: the three filter-strategy constructors are
    imported; constructing a filter records which strategy was chosen and the
    parameters handed to it (the index alone, or the whole descriptor). *)
Inductive NodeFilter : Type :=
  | IndexedFilter (index : Index)
  | LimitedFilter (params : QueryParams)
  | RangedFilter (params : QueryParams).

Definition getNodeFilter (this : QueryParams) : NodeFilter :=
  if loadsAllData this then IndexedFilter (getIndex this)
  else if hasLimit this then LimitedFilter this
  else RangedFilter this.

(** *** REST query string *)

(** The values of the REST parameter object: [string | number]. *)
Inductive RestValue : Type :=
  | RestString (s : string)
  | RestNumber (n : Z).

(** [qs[name] += suffix] with a string [suffix]: string concatenation with
    whatever [qs[name]] holds. *)
Definition append_to (name suffix : string) (qs : gmap string RestValue)
    : gmap string RestValue :=
  let current :=
    match qs !! name with
    | Some (RestString s) => s
    | Some (RestNumber n) => pretty n
    | None => "undefined"
    end in
  <[name := RestString (current +:+ suffix)]> qs.

(** [stringify] is the imported JSON writer of [@firebase/util], taken here
    as a parameter. *)
Definition toRestQueryStringParameters (stringify : JsVal → string)
    (this : QueryParams) : result (gmap string RestValue) :=
  let qs : gmap string RestValue := ∅ in
  if isDefault this then Ok qs
  else
    orderBy ←
      (if bool_decide (index_ this = PRIORITY_INDEX) then
         Ok REST_CONSTANTS.PRIORITY_INDEX
       else if bool_decide (index_ this = VALUE_INDEX) then
         Ok REST_CONSTANTS.VALUE_INDEX
       else if bool_decide (index_ this = KEY_INDEX) then
         Ok REST_CONSTANTS.KEY_INDEX
       else
         assert (instanceof_PathIndex (index_ this)) "Unrecognized index type!" ;;
         Ok (Index_toString (index_ this)));
    let qs := <[REST_CONSTANTS.ORDER_BY := RestString (stringify (VStr orderBy))]> qs in
    let qs :=
      if startSet_ this then
        let qs := <[REST_CONSTANTS.START_AT :=
                      RestString (stringify (indexStartValue_ this))]> qs in
        if startNameSet_ this then
          append_to REST_CONSTANTS.START_AT
            ("," +:+ stringify (Key_value (indexStartName_ this))) qs
        else qs
      else qs in
    let qs :=
      if endSet_ this then
        let qs := <[REST_CONSTANTS.END_AT :=
                      RestString (stringify (indexEndValue_ this))]> qs in
        if endNameSet_ this then
          append_to REST_CONSTANTS.END_AT
            ("," +:+ stringify (Key_value (indexEndName_ this))) qs
        else qs
      else qs in
    let qs :=
      if limitSet_ this then
        if isViewFromLeft this then
          <[REST_CONSTANTS.LIMIT_TO_FIRST := RestNumber (limit_ this)]> qs
        else
          <[REST_CONSTANTS.LIMIT_TO_LAST := RestNumber (limit_ this)]> qs
      else qs in
    Ok qs.

(** ** Reachable descriptors *)

(** One call of the builder API, with its arguments. *)
Inductive Transition : Type :=
  | TstartAt (indexValue : JsVal) (key : Key)
  | TendAt (indexValue : JsVal) (key : Key)
  | Tlimit (newLimit : Z)
  | TlimitToFirst (newLimit : Z)
  | TlimitToLast (newLimit : Z)
  | TorderBy (index : Index)
  | Tfind (filter option : JsVal)
  | Taggregate (pipeline : JsVal).

Definition transition (this : QueryParams) (t : Transition) : QueryParams :=
  match t with
  | TstartAt indexValue key => startAt this indexValue key
  | TendAt indexValue key => endAt this indexValue key
  | Tlimit newLimit => limit this newLimit
  | TlimitToFirst newLimit => limitToFirst this newLimit
  | TlimitToLast newLimit => limitToLast this newLimit
  | TorderBy index => orderBy this index
  | Tfind filter option => find this filter option
  | Taggregate pipeline => aggregate this pipeline
  end.

(** The descriptors a caller can build: [DEFAULT] and whatever a chain of
    transitions makes of it. *)
Inductive reachable : QueryParams → Prop :=
  | reachable_DEFAULT : reachable DEFAULT
  | reachable_transition this t :
      reachable this → reachable (transition this t).

(** The limit a transition is called with, if it is one of the three limit
    transitions. *)
Definition limit_argument (t : Transition) : option Z :=
  match t with
  | Tlimit n | TlimitToFirst n | TlimitToLast n => Some n
  | _ => None
  end.

(** Descriptors built by callers that validate limits before handing them
    over: every limit argument is non-negative. *)
Inductive reachable_validated : QueryParams → Prop :=
  | validated_DEFAULT : reachable_validated DEFAULT
  | validated_transition this t :
      reachable_validated this →
      (∀ n, limit_argument t = Some n → 0 ≤ n) →
      reachable_validated (transition this t).

(** ** Instances in a store *)

(** The methods above work on the field values of their receiver.  To speak
    of the receiver itself staying as it was, instances are put in a store
    and the transitions are written once more on addresses, assignment by
    assignment on the instance that [copy_] allocates. *)
Abbreviation store := (gmap nat QueryParams).

(** A computation on the store; [None] if it follows an address that holds
    no instance. *)
Definition run (A : Type) : Type := store → option (A * store).

#[global] Instance run_ret : MRet run := λ A a σ, Some (a, σ).
#[global] Instance run_bind : MBind run := λ A B k m σ,
  match m σ with
  | Some (a, σ') => k a σ'
  | None => None
  end.

(** [new QueryParams()] *)
Definition allocate : run nat := λ σ,
  let address := fresh (dom σ) in
  Some (address, <[address := new_QueryParams]> σ).

(** [object.field] *)
Definition load {A} (object : nat) (field : QueryParams → A) : run A := λ σ,
  match σ !! object with
  | Some q => Some (field q, σ)
  | None => None
  end.

(** [object.field = v], with [assign] one of the [set_] functions at [v] *)
Definition assign_field (object : nat) (assign : QueryParams → QueryParams)
    : run unit := λ σ,
  match σ !! object with
  | Some q => Some (tt, <[object := assign q]> σ)
  | None => None
  end.

Module Stored.

Definition copy_ (this : nat) : run nat :=
  copy ← allocate;
  v ← load this limitSet_; assign_field copy (set_limitSet_ v);;
  v ← load this limit_; assign_field copy (set_limit_ v);;
  v ← load this startSet_; assign_field copy (set_startSet_ v);;
  v ← load this indexStartValue_; assign_field copy (set_indexStartValue_ v);;
  v ← load this startNameSet_; assign_field copy (set_startNameSet_ v);;
  v ← load this findSet_; assign_field copy (set_findSet_ v);;
  v ← load this indexStartName_; assign_field copy (set_indexStartName_ v);;
  v ← load this endSet_; assign_field copy (set_endSet_ v);;
  v ← load this indexEndValue_; assign_field copy (set_indexEndValue_ v);;
  v ← load this endNameSet_; assign_field copy (set_endNameSet_ v);;
  v ← load this indexEndName_; assign_field copy (set_indexEndName_ v);;
  v ← load this index_; assign_field copy (set_index_ v);;
  v ← load this viewFrom_; assign_field copy (set_viewFrom_ v);;
  v ← load this findFilter_; assign_field copy (set_findFilter_ v);;
  v ← load this findOption_; assign_field copy (set_findOption_ v);;
  v ← load this aggregatePipeline_; assign_field copy (set_aggregatePipeline_ v);;
  mret copy.

Definition find (this : nat) (filter option : JsVal) : run nat :=
  newParams ← copy_ this;
  let filter := if is_undefined filter then VNull else filter in
  let option := if is_undefined option then VNull else option in
  assign_field newParams (set_findSet_ true);;
  assign_field newParams (set_findFilter_ filter);;
  assign_field newParams (set_findOption_ option);;
  mret newParams.

Definition aggregate (this : nat) (pipeline : JsVal) : run nat :=
  newParams ← copy_ this;
  let pipeline := if is_undefined pipeline then VNull else pipeline in
  assign_field newParams (set_aggregateSet_ true);;
  assign_field newParams (set_aggregatePipeline_ pipeline);;
  mret newParams.

Definition limit (this : nat) (newLimit : Z) : run nat :=
  newParams ← copy_ this;
  assign_field newParams (set_limitSet_ true);;
  assign_field newParams (set_limit_ newLimit);;
  assign_field newParams (set_viewFrom_ "");;
  mret newParams.

Definition limitToFirst (this : nat) (newLimit : Z) : run nat :=
  newParams ← copy_ this;
  assign_field newParams (set_limitSet_ true);;
  assign_field newParams (set_limit_ newLimit);;
  assign_field newParams (set_viewFrom_ WIRE_PROTOCOL_CONSTANTS.VIEW_FROM_LEFT);;
  mret newParams.

Definition limitToLast (this : nat) (newLimit : Z) : run nat :=
  newParams ← copy_ this;
  assign_field newParams (set_limitSet_ true);;
  assign_field newParams (set_limit_ newLimit);;
  assign_field newParams (set_viewFrom_ WIRE_PROTOCOL_CONSTANTS.VIEW_FROM_RIGHT);;
  mret newParams.

Definition startAt (this : nat) (indexValue : JsVal) (key : Key) : run nat :=
  newParams ← copy_ this;
  assign_field newParams (set_startSet_ true);;
  let indexValue := if is_undefined indexValue then VNull else indexValue in
  assign_field newParams (set_indexStartValue_ indexValue);;
  (if loosely_not_null key then
     assign_field newParams (set_startNameSet_ true);;
     assign_field newParams (set_indexStartName_ key)
   else
     assign_field newParams (set_startNameSet_ false);;
     assign_field newParams (set_indexStartName_ (KeyString "")));;
  mret newParams.

Definition endAt (this : nat) (indexValue : JsVal) (key : Key) : run nat :=
  newParams ← copy_ this;
  assign_field newParams (set_endSet_ true);;
  let indexValue := if is_undefined indexValue then VNull else indexValue in
  assign_field newParams (set_indexEndValue_ indexValue);;
  (if strictly_not_undefined key then
     assign_field newParams (set_endNameSet_ true);;
     assign_field newParams (set_indexEndName_ key)
   else
     assign_field newParams (set_endNameSet_ false);;
     assign_field newParams (set_indexEndName_ (KeyString "")));;
  mret newParams.

Definition orderBy (this : nat) (index : Index) : run nat :=
  newParams ← copy_ this;
  assign_field newParams (set_index_ index);;
  mret newParams.

Definition transition (this : nat) (t : Transition) : run nat :=
  match t with
  | TstartAt indexValue key => startAt this indexValue key
  | TendAt indexValue key => endAt this indexValue key
  | Tlimit newLimit => limit this newLimit
  | TlimitToFirst newLimit => limitToFirst this newLimit
  | TlimitToLast newLimit => limitToLast this newLimit
  | TorderBy index => orderBy this index
  | Tfind filter option => find this filter option
  | Taggregate pipeline => aggregate this pipeline
  end.

End Stored.

(** ** Vocabulary of the statements *)

(** [x] has a member [m] that is callable. *)
Definition exposes_callable (x : JsVal) (m : string) : Prop :=
  js_in m x = true ∧ typeof (js_get x m) = "function".

(** A rendered object carries the token [t]. *)
Definition has_token {V} (obj : gmap string V) (t : string) : Prop :=
  is_Some (obj !! t).

(** The tie-break flags never outlive their bound. *)
Definition names_within_bounds (d : QueryParams) : Prop :=
  (startNameSet_ d = true → startSet_ d = true)
  ∧ (endNameSet_ d = true → endSet_ d = true).

(** The anchor is unset, left or right. *)
Definition anchor_is_known (d : QueryParams) : Prop :=
  viewFrom_ d = ""
  ∨ viewFrom_ d = WIRE_PROTOCOL_CONSTANTS.VIEW_FROM_LEFT
  ∨ viewFrom_ d = WIRE_PROTOCOL_CONSTANTS.VIEW_FROM_RIGHT.

(** The fields of a descriptor, to say which ones a transition writes. *)
Inductive Field : Type :=
  | F_limitSet_ | F_startSet_ | F_startNameSet_ | F_endSet_ | F_endNameSet_
  | F_findSet_ | F_aggregateSet_ | F_limit_ | F_viewFrom_
  | F_indexStartValue_ | F_indexStartName_ | F_indexEndValue_
  | F_indexEndName_ | F_findFilter_ | F_findOption_ | F_aggregatePipeline_
  | F_index_.

(** [d] and [d'] hold the same value in field [f]. *)
Definition same_field (f : Field) (d d' : QueryParams) : Prop :=
  match f with
  | F_limitSet_ => limitSet_ d = limitSet_ d'
  | F_startSet_ => startSet_ d = startSet_ d'
  | F_startNameSet_ => startNameSet_ d = startNameSet_ d'
  | F_endSet_ => endSet_ d = endSet_ d'
  | F_endNameSet_ => endNameSet_ d = endNameSet_ d'
  | F_findSet_ => findSet_ d = findSet_ d'
  | F_aggregateSet_ => aggregateSet_ d = aggregateSet_ d'
  | F_limit_ => limit_ d = limit_ d'
  | F_viewFrom_ => viewFrom_ d = viewFrom_ d'
  | F_indexStartValue_ => indexStartValue_ d = indexStartValue_ d'
  | F_indexStartName_ => indexStartName_ d = indexStartName_ d'
  | F_indexEndValue_ => indexEndValue_ d = indexEndValue_ d'
  | F_indexEndName_ => indexEndName_ d = indexEndName_ d'
  | F_findFilter_ => findFilter_ d = findFilter_ d'
  | F_findOption_ => findOption_ d = findOption_ d'
  | F_aggregatePipeline_ => aggregatePipeline_ d = aggregatePipeline_ d'
  | F_index_ => index_ d = index_ d'
  end.

(** The fields a transition assigns after copying. *)
Definition overwrites (t : Transition) : list Field :=
  match t with
  | TstartAt _ _ =>
      [F_startSet_; F_indexStartValue_; F_startNameSet_; F_indexStartName_]
  | TendAt _ _ =>
      [F_endSet_; F_indexEndValue_; F_endNameSet_; F_indexEndName_]
  | Tlimit _ | TlimitToFirst _ | TlimitToLast _ =>
      [F_limitSet_; F_limit_; F_viewFrom_]
  | TorderBy _ => [F_index_]
  | Tfind _ _ => [F_findSet_; F_findFilter_; F_findOption_]
  | Taggregate _ => [F_aggregateSet_; F_aggregatePipeline_]
  end.

(** A chain of builder calls, applied from left to right. *)
Definition transitions (this : QueryParams) (ts : list Transition) : QueryParams :=
  fold_left transition ts this.

(** The fields fall into six groups, one per kind of transition: the start
    bound, the end bound, the limit with its anchor, the index, and the two
    legacy modes. *)
Inductive Group : Type :=
  | G_start | G_end | G_limit | G_index | G_find | G_aggregate.

#[global] Instance Group_eq_dec : EqDecision Group.
Proof. solve_decision. Defined.

Definition group (t : Transition) : Group :=
  match t with
  | TstartAt _ _ => G_start
  | TendAt _ _ => G_end
  | Tlimit _ | TlimitToFirst _ | TlimitToLast _ => G_limit
  | TorderBy _ => G_index
  | Tfind _ _ => G_find
  | Taggregate _ => G_aggregate
  end.

Definition field_group (f : Field) : Group :=
  match f with
  | F_startSet_ | F_indexStartValue_ | F_startNameSet_ | F_indexStartName_ => G_start
  | F_endSet_ | F_indexEndValue_ | F_endNameSet_ | F_indexEndName_ => G_end
  | F_limitSet_ | F_limit_ | F_viewFrom_ => G_limit
  | F_index_ => G_index
  | F_findSet_ | F_findFilter_ | F_findOption_ => G_find
  | F_aggregateSet_ | F_aggregatePipeline_ => G_aggregate
  end.

(** [undefined] becomes [null] when a transition stores a value. *)
Definition stored_value (v : JsVal) : JsVal :=
  if is_undefined v then VNull else v.

(** No field holds [undefined], the start name is a string and the end name
    is a string or [null]. *)
Definition stores_no_undefined (d : QueryParams) : Prop :=
  indexStartValue_ d ≠ VUndefined
  ∧ indexEndValue_ d ≠ VUndefined
  ∧ findFilter_ d ≠ VUndefined
  ∧ findOption_ d ≠ VUndefined
  ∧ aggregatePipeline_ d ≠ VUndefined
  ∧ (∃ s, indexStartName_ d = KeyString s)
  ∧ indexEndName_ d ≠ KeyUndefined.

(** The fields behind a flag that is not set hold what [new QueryParams()]
    gave them. *)
Definition unset_is_initial (d : QueryParams) : Prop :=
  (startSet_ d = false →
     indexStartValue_ d = VNull ∧ startNameSet_ d = false)
  ∧ (endSet_ d = false →
       indexEndValue_ d = VNull ∧ endNameSet_ d = false)
  ∧ (limitSet_ d = false → limit_ d = 0 ∧ viewFrom_ d = "")
  ∧ (findSet_ d = false → findFilter_ d = VNull ∧ findOption_ d = VNull)
  ∧ (startNameSet_ d = false → indexStartName_ d = KeyString "")
  ∧ (endNameSet_ d = false → indexEndName_ d = KeyString "").

(** The [orderBy] parameter of an index, before [stringify]: the sentinel of
    the three well-known indexes, the path of a path index. *)
Definition orderBy_parameter (index : Index) : string :=
  match index with
  | PRIORITY_INDEX => REST_CONSTANTS.PRIORITY_INDEX
  | VALUE_INDEX => REST_CONSTANTS.VALUE_INDEX
  | KEY_INDEX => REST_CONSTANTS.KEY_INDEX
  | PathIndex indexPath => indexPath
  end.

(** A bound as the REST parameters write it: the value, then a comma and the
    name if the name flag is set. *)
Definition bound_parameter (stringify : JsVal → string)
    (value : JsVal) (nameSet : bool) (name : Key) : RestValue :=
  if nameSet
  then RestString (stringify value +:+ ("," +:+ stringify (Key_value name)))
  else RestString (stringify value).

(** * Properties *)

(** ** Observer detection *)

Lemma implementsAnyMethods_loop_true object methods :
  implementsAnyMethods_loop object methods = true ↔
  ∃ m, m ∈ methods ∧ exposes_callable object m.
Proof.
  unfold exposes_callable.
  induction methods as [|method rest IH]; simpl.
  - split; [done | intros (m & Hm & _); by apply elem_of_nil in Hm].
  - destruct (js_in method object) eqn:Hin; simpl.
    + case_bool_decide as Hty.
      * split; [intros _ | done]. exists method. split; [left | done].
      * rewrite IH. split.
        -- intros (m & Hm & H). exists m. split; [by right | done].
        -- intros (m & Hm & H1 & H2). apply elem_of_cons in Hm as [-> | Hm].
           ++ contradiction.
           ++ by exists m.
    + rewrite IH. split.
      * intros (m & Hm & H). exists m. split; [by right | done].
      * intros (m & Hm & H1 & H2). apply elem_of_cons in Hm as [-> | Hm].
        -- congruence.
        -- by exists m.
Qed.

Lemma implementsAnyMethods_true obj methods :
  implementsAnyMethods obj methods = true ↔
  typeof obj = "object" ∧ obj ≠ VNull ∧ ∃ m, m ∈ methods ∧ exposes_callable obj m.
Proof.
  unfold implementsAnyMethods.
  case_bool_decide as Hty; simpl.
  - destruct obj; simpl; try discriminate Hty.
    + split; [done | by intros (_ & ? & _)].
    + rewrite implementsAnyMethods_loop_true.
      split; [intros H; by repeat split | by intros (_ & _ & H)].
  - split; [done | by intros (? & _)].
Qed.

(** C9, as the code has it: [isPartialObserver x] is true exactly when [x]
    is an object by [typeof] (and not [null]) that exposes at least one of
    [next], [error], [complete] as a callable, whatever else [x] is; it is
    false for [null], for every value whose [typeof] is not ["object"], and
    so for every function value, whatever members it carries. *)
Theorem isPartialObserver_spec (x : JsVal) :
  (isPartialObserver x = true ↔
     typeof x = "object" ∧ x ≠ VNull ∧
     ∃ m, m ∈ ["next"; "error"; "complete"] ∧ exposes_callable x m)
  ∧ isPartialObserver VNull = false
  ∧ (typeof x ≠ "object" → isPartialObserver x = false)
  ∧ (∀ props, isPartialObserver (VFunction props) = false).
Proof.
  split; [apply implementsAnyMethods_true |].
  split; [reflexivity |].
  split; [| reflexivity].
  intros Hty. apply not_true_is_false. intros H.
  apply implementsAnyMethods_true in H as [? _]. contradiction.
Qed.

(** C9 as stated fails: a function value that carries a callable [next]
    exposes one of the three members as a callable, and [isPartialObserver]
    answers [false] for it, since its [typeof] is ["function"]. *)
Lemma isPartialObserver_function_with_next :
  (∃ m, m ∈ ["next"; "error"; "complete"]
        ∧ exposes_callable (VFunction {[ "next" := VFunction ∅ ]}) m)
  ∧ isPartialObserver (VFunction {[ "next" := VFunction ∅ ]}) = false
  ∧ ¬ (∀ x, isPartialObserver x = true ↔
            ∃ m, m ∈ ["next"; "error"; "complete"] ∧ exposes_callable x m).
Proof.
  assert (∃ m, m ∈ ["next"; "error"; "complete"]
               ∧ exposes_callable (VFunction {[ "next" := VFunction ∅ ]}) m)
    as Hexposes.
  { exists "next". split; [left |]. by split. }
  split; [exact Hexposes |].
  split; [reflexivity |].
  intros Hclaim. apply Hclaim in Hexposes. discriminate Hexposes.
Qed.

Example isPartialObserver_next_only :
  isPartialObserver (VObject {[ "next" := VFunction ∅ ]}) = true.
Proof. reflexivity. Qed.

Example isPartialObserver_uncallable_member :
  isPartialObserver (VObject {[ "next" := VNum 1 ]}) = false.
Proof. reflexivity. Qed.

Example isPartialObserver_string : isPartialObserver (VStr "next") = false.
Proof. reflexivity. Qed.

(** ** Copying *)

(** What [copy_] returns: the receiver with [aggregateSet_] back at its
    initial value, the one field the method has no assignment for. *)
Lemma copy_unfold this : copy_ this = set_aggregateSet_ false this.
Proof. by destruct this. Qed.

(** ** Filter selection *)

Lemma hasLimit_not_loadsAllData this :
  hasLimit this = true → loadsAllData this = false.
Proof.
  unfold hasLimit, loadsAllData. intros ->.
  by rewrite !orb_true_r.
Qed.

(** C2: [getNodeFilter] is decided by [loadsAllData] first and [hasLimit]
    second, yields exactly one of the three filters, hands the full-scan
    filter the index alone and the two others the whole descriptor, and picks
    the limited-window filter exactly when [hasLimit] holds. *)
Theorem getNodeFilter_selection (d : QueryParams) :
  (loadsAllData d = true → getNodeFilter d = IndexedFilter (index_ d))
  ∧ (loadsAllData d = false → hasLimit d = true →
       getNodeFilter d = LimitedFilter d)
  ∧ (loadsAllData d = false → hasLimit d = false →
       getNodeFilter d = RangedFilter d)
  ∧ ((∃ params, getNodeFilter d = LimitedFilter params) ↔ hasLimit d = true).
Proof.
  unfold getNodeFilter, getIndex.
  repeat split.
  - by intros ->.
  - by intros -> ->.
  - by intros -> ->.
  - intros [params H].
    destruct (loadsAllData d); [discriminate H |].
    by destruct (hasLimit d).
  - intros H. exists d.
    by rewrite (hasLimit_not_loadsAllData _ H), H.
Qed.

Example getNodeFilter_bounds_and_limit :
  let d := limitToFirst (endAt (startAt DEFAULT (VNum 5) (KeyString "k1"))
                               (VNum 10) KeyUndefined) 3 in
  getNodeFilter d = LimitedFilter d.
Proof. reflexivity. Qed.

Example getNodeFilter_DEFAULT : getNodeFilter DEFAULT = IndexedFilter PRIORITY_INDEX.
Proof. reflexivity. Qed.

Example getNodeFilter_range_only :
  getNodeFilter (startAt DEFAULT (VNum 5) KeyUndefined)
  = RangedFilter (startAt DEFAULT (VNum 5) KeyUndefined).
Proof. reflexivity. Qed.

(** ** Invariants of reachable descriptors *)

(** The properties below are first shown to be kept by every transition and
    then lifted to [reachable] by induction. *)
Ltac by_transition t :=
  destruct t as [? key | ? key | ? | ? | ? | index | filter option | pipeline];
  unfold transition, startAt, endAt, limit, limitToFirst, limitToLast,
    orderBy, find, aggregate;
  rewrite ?copy_unfold;
  try destruct key.

Lemma names_within_bounds_transition d t :
  names_within_bounds d → names_within_bounds (transition d t).
Proof.
  unfold names_within_bounds. intros [Hs He].
  by_transition t; destruct d; simpl in *; split; auto.
Qed.

Lemma anchor_is_known_transition d t :
  anchor_is_known d → anchor_is_known (transition d t).
Proof.
  unfold anchor_is_known. intros H.
  by_transition t; destruct d; simpl in *; auto.
Qed.

Lemma reachable_names_within_bounds d : reachable d → names_within_bounds d.
Proof.
  induction 1 as [|d t _ IH].
  - split; discriminate.
  - by apply names_within_bounds_transition.
Qed.

Lemma reachable_anchor_is_known d : reachable d → anchor_is_known d.
Proof.
  induction 1 as [|d t _ IH].
  - by left.
  - by apply anchor_is_known_transition.
Qed.

Lemma reachable_validated_reachable d : reachable_validated d → reachable d.
Proof. induction 1; by constructor. Qed.

(** ** Wire format *)

(** What each token of the wire objects holds.  The flags are split into
    cases, after which each lookup computes. *)
Ltac split_flags d :=
  destruct d;
  cbn [limitSet_ startSet_ startNameSet_ endSet_ endNameSet_ findSet_
       aggregateSet_ limit_ viewFrom_ indexStartValue_ indexStartName_
       indexEndValue_ indexEndName_ findFilter_ findOption_
       aggregatePipeline_ index_];
  repeat match goal with
         | |- context [if ?b then _ else _] => is_var b; destruct b
         end.

Ltac wire_lookup d :=
  unfold getQueryObject, getMongoObject, isViewFromLeft;
  split_flags d;
  repeat case_bool_decide; reflexivity.

Lemma getQueryObject_sp d :
  getQueryObject d !! "sp" = if startSet_ d then Some (indexStartValue_ d) else None.
Proof. wire_lookup d. Qed.

Lemma getQueryObject_sn d :
  getQueryObject d !! "sn"
  = if startSet_ d && startNameSet_ d
    then Some (Key_value (indexStartName_ d)) else None.
Proof. wire_lookup d. Qed.

Lemma getQueryObject_ep d :
  getQueryObject d !! "ep" = if endSet_ d then Some (indexEndValue_ d) else None.
Proof. wire_lookup d. Qed.

Lemma getQueryObject_en d :
  getQueryObject d !! "en"
  = if endSet_ d && endNameSet_ d
    then Some (Key_value (indexEndName_ d)) else None.
Proof. wire_lookup d. Qed.

Lemma getQueryObject_l d :
  getQueryObject d !! "l" = if limitSet_ d then Some (VNum (limit_ d)) else None.
Proof. wire_lookup d. Qed.

Lemma getQueryObject_vf d :
  getQueryObject d !! "vf"
  = if limitSet_ d
    then Some (VStr (if bool_decide (viewFrom_ d = "")
                     then (if isViewFromLeft d then "l" else "r")
                     else viewFrom_ d))
    else None.
Proof. wire_lookup d. Qed.

Lemma getQueryObject_i d :
  getQueryObject d !! "i"
  = if bool_decide (index_ d = PRIORITY_INDEX)
    then None else Some (VStr (Index_toString (index_ d))).
Proof. wire_lookup d. Qed.

Lemma getMongoObject_f d :
  getMongoObject d !! "f" = if findSet_ d then Some (findFilter_ d) else None.
Proof. wire_lookup d. Qed.

Lemma getMongoObject_p d :
  getMongoObject d !! "p" = if findSet_ d then Some (findOption_ d) else None.
Proof. wire_lookup d. Qed.

Lemma getMongoObject_a d :
  getMongoObject d !! "a"
  = if aggregateSet_ d then Some (aggregatePipeline_ d) else None.
Proof. wire_lookup d. Qed.

Ltac no_other_token d :=
  split_flags d; repeat case_bool_decide; cbn [negb];
  rewrite ?lookup_insert_ne by done;
  rewrite lookup_empty; by intros [].

Lemma getQueryObject_tokens d t :
  has_token (getQueryObject d) t → t ∈ ["sp"; "sn"; "ep"; "en"; "l"; "vf"; "i"].
Proof.
  destruct (decide (t ∈ ["sp"; "sn"; "ep"; "en"; "l"; "vf"; "i"])) as [|Hn];
    [done |].
  rewrite !not_elem_of_cons in Hn.
  destruct Hn as (? & ? & ? & ? & ? & ? & ? & _).
  unfold has_token, getQueryObject, isViewFromLeft.
  no_other_token d.
Qed.

Lemma getMongoObject_tokens d t :
  has_token (getMongoObject d) t → t ∈ ["f"; "p"; "a"].
Proof.
  destruct (decide (t ∈ ["f"; "p"; "a"])) as [|Hn]; [done |].
  rewrite !not_elem_of_cons in Hn.
  destruct Hn as (? & ? & ? & _).
  unfold has_token, getMongoObject.
  no_other_token d.
Qed.

Lemma is_Some_if {A} (b : bool) (x : A) :
  is_Some (if b then Some x else None) ↔ b = true.
Proof. destruct b; split; (done || by intros []). Qed.

(** C1: the wire objects carry a token exactly when the field behind it is
    set.  In [getQueryObject]: [sp] iff [hasStart], [sn] iff [hasStart] and
    the start-name flag, [ep] iff [hasEnd], [en] iff [hasEnd] and the
    end-name flag, [l] and [vf] iff [hasLimit], [i] iff the index is not the
    priority index.  In [getMongoObject]: [f] and [p] iff the find flag, [a]
    iff the aggregate flag.  A field that is not set has no token at all
    (the lookup is [None], not a [null] value), and neither object carries
    any other token. *)
Theorem wire_token_iff_field_set (d : QueryParams) :
  (has_token (getQueryObject d) "sp" ↔ hasStart d = true)
  ∧ (has_token (getQueryObject d) "sn" ↔ hasStart d = true ∧ startNameSet_ d = true)
  ∧ (has_token (getQueryObject d) "ep" ↔ hasEnd d = true)
  ∧ (has_token (getQueryObject d) "en" ↔ hasEnd d = true ∧ endNameSet_ d = true)
  ∧ (has_token (getQueryObject d) "l" ↔ hasLimit d = true)
  ∧ (has_token (getQueryObject d) "vf" ↔ hasLimit d = true)
  ∧ (has_token (getQueryObject d) "i" ↔ index_ d ≠ PRIORITY_INDEX)
  ∧ (has_token (getMongoObject d) "f" ↔ findSet_ d = true)
  ∧ (has_token (getMongoObject d) "p" ↔ findSet_ d = true)
  ∧ (has_token (getMongoObject d) "a" ↔ aggregateSet_ d = true)
  ∧ (∀ t, has_token (getQueryObject d) t →
          t ∈ ["sp"; "sn"; "ep"; "en"; "l"; "vf"; "i"])
  ∧ (∀ t, has_token (getMongoObject d) t → t ∈ ["f"; "p"; "a"]).
Proof.
  unfold has_token, hasStart, hasEnd, hasLimit.
  rewrite getQueryObject_sp, getQueryObject_sn, getQueryObject_ep,
    getQueryObject_en, getQueryObject_l, getQueryObject_vf, getQueryObject_i,
    getMongoObject_f, getMongoObject_p, getMongoObject_a.
  rewrite !is_Some_if, !andb_true_iff.
  do 6 (split; [done |]).
  split.
  { case_bool_decide as Hi; split; intros H.
    - by destruct H.
    - done.
    - done.
    - by eexists. }
  do 3 (split; [done |]).
  split; [apply getQueryObject_tokens | apply getMongoObject_tokens].
Qed.

Example wire_of_example_1 :
  getQueryObject
    (limitToFirst (endAt (startAt DEFAULT (VNum 5) (KeyString "k1"))
                         (VNum 10) KeyUndefined) 3)
  = {[ "sp" := VNum 5; "sn" := VStr "k1"; "ep" := VNum 10;
       "l" := VNum 3; "vf" := VStr "l" ]}.
Proof. reflexivity. Qed.

Example wire_of_value_index :
  getQueryObject (orderBy DEFAULT VALUE_INDEX) = {[ "i" := VStr ".value" ]}.
Proof. reflexivity. Qed.

Example wire_of_find :
  getMongoObject (find DEFAULT (VStr "filter") VUndefined)
  = {[ "f" := VStr "filter"; "p" := VNull ]}.
Proof. reflexivity. Qed.

(** C10: on every descriptor built from [DEFAULT], a tie-break flag is set
    only together with the flag of its bound, and so the wire object never
    carries [sn] without [sp] nor [en] without [ep]. *)
Theorem name_flag_needs_bound_flag (d : QueryParams) :
  reachable d →
  (startNameSet_ d = true → startSet_ d = true)
  ∧ (endNameSet_ d = true → endSet_ d = true)
  ∧ (has_token (getQueryObject d) "sn" → has_token (getQueryObject d) "sp")
  ∧ (has_token (getQueryObject d) "en" → has_token (getQueryObject d) "ep").
Proof.
  intros [Hs He]%reachable_names_within_bounds.
  repeat split; try done; unfold has_token.
  - rewrite getQueryObject_sn, getQueryObject_sp, !is_Some_if.
    by intros [? _]%andb_true_iff.
  - rewrite getQueryObject_en, getQueryObject_ep, !is_Some_if.
    by intros [? _]%andb_true_iff.
Qed.

Lemma name_flag_needs_bound_flag_witness :
  let d := endAt (startAt DEFAULT (VNum 5) (KeyString "k1")) (VNum 10) KeyUndefined in
  reachable d
  ∧ (startNameSet_ d = true → startSet_ d = true)
  ∧ (endNameSet_ d = true → endSet_ d = true)
  ∧ (has_token (getQueryObject d) "sn" → has_token (getQueryObject d) "sp")
  ∧ (has_token (getQueryObject d) "en" → has_token (getQueryObject d) "ep").
Proof.
  assert (H : reachable
                (endAt (startAt DEFAULT (VNum 5) (KeyString "k1"))
                       (VNum 10) KeyUndefined)).
  { apply (reachable_transition _ (TendAt (VNum 10) KeyUndefined)).
    apply (reachable_transition _ (TstartAt (VNum 5) (KeyString "k1"))).
    apply reachable_DEFAULT. }
  split; [exact H | exact (name_flag_needs_bound_flag _ H)].
Defined.

(** ** Anchor side *)

(** C3: on every reachable descriptor, [isViewFromLeft] says whether the
    anchor is left when an anchor was set (true after [limitToFirst], false
    after [limitToLast]), and whether a start bound is present when none was
    (so it is false with no bound or only an end bound); and when a limit is
    present the [vf] token of the wire object is resolved by that very rule,
    to ["l"] or ["r"] and nothing else, also when the limit is unanchored. *)
Theorem isViewFromLeft_resolution (d : QueryParams) :
  reachable d →
  (viewFrom_ d ≠ "" →
     isViewFromLeft d = bool_decide (viewFrom_ d = WIRE_PROTOCOL_CONSTANTS.VIEW_FROM_LEFT))
  ∧ (viewFrom_ d = "" → isViewFromLeft d = hasStart d)
  ∧ (hasLimit d = true →
       getQueryObject d !! "vf"
       = Some (VStr (if isViewFromLeft d
                     then WIRE_PROTOCOL_CONSTANTS.VIEW_FROM_LEFT
                     else WIRE_PROTOCOL_CONSTANTS.VIEW_FROM_RIGHT)))
  ∧ (hasLimit d = true → hasAnchoredLimit d = false →
       getQueryObject d !! "vf" = Some (VStr (if hasStart d then "l" else "r")))
  ∧ (∀ n, isViewFromLeft (limitToFirst d n) = true
          ∧ isViewFromLeft (limitToLast d n) = false
          ∧ isViewFromLeft (limit d n) = hasStart d).
Proof.
  intros Hanchor%reachable_anchor_is_known.
  unfold hasLimit, hasAnchoredLimit, hasStart.
  split; [| split; [| split; [| split]]]; [| | | | by destruct d].
  - intros Hset. unfold isViewFromLeft. by rewrite bool_decide_eq_false_2.
  - intros Hunset. unfold isViewFromLeft. by rewrite bool_decide_eq_true_2.
  - intros Hlimit. rewrite getQueryObject_vf, Hlimit.
    unfold isViewFromLeft.
    destruct Hanchor as [H | [H | H]]; rewrite H; reflexivity.
  - intros Hlimit Hunanchored. rewrite getQueryObject_vf, Hlimit.
    rewrite Hlimit in Hunanchored. simpl in Hunanchored.
    apply negb_false_iff in Hunanchored.
    unfold isViewFromLeft. by rewrite Hunanchored.
Qed.

Lemma isViewFromLeft_resolution_witness :
  let d := limit (startAt DEFAULT (VNum 5) KeyUndefined) 3 in
  reachable d
  ∧ isViewFromLeft d = true
  ∧ getQueryObject d !! "vf" = Some (VStr "l").
Proof.
  assert (H : reachable (limit (startAt DEFAULT (VNum 5) KeyUndefined) 3)).
  { apply (reachable_transition _ (Tlimit 3)).
    apply (reachable_transition _ (TstartAt (VNum 5) KeyUndefined)).
    apply reachable_DEFAULT. }
  destruct (isViewFromLeft_resolution _ H) as (_ & Hunset & Hvf & _ & _).
  split; [exact H |].
  split; [exact (Hunset eq_refl) | exact (Hvf eq_refl)].
Defined.

Example isViewFromLeft_limit_only : isViewFromLeft (limit DEFAULT 3) = false.
Proof. reflexivity. Qed.

Example vf_limit_only : getQueryObject (limit DEFAULT 3) !! "vf" = Some (VStr "r").
Proof. reflexivity. Qed.

Example isViewFromLeft_end_only :
  isViewFromLeft (limit (endAt DEFAULT (VNum 9) KeyUndefined) 3) = false.
Proof. reflexivity. Qed.

Example isViewFromLeft_anchored_right :
  isViewFromLeft (limitToLast (startAt DEFAULT (VNum 5) KeyUndefined) 3) = false.
Proof. reflexivity. Qed.

(** ** Limits *)

(** C8, as the code has it: on every descriptor built by transitions whose
    limit arguments are non-negative (this layer stores the limit it is
    given and leaves validation to its caller), a set limit is non-negative;
    [limit n] stores [n] and clears the anchor, [limitToFirst n] and
    [limitToLast n] store [n] and set one. *)
Theorem limit_stored_and_anchor (d : QueryParams) :
  reachable_validated d →
  (hasLimit d = true → 0 ≤ limit_ d)
  ∧ (∀ this n,
       getLimit (limit this n) = Ok n
       ∧ hasAnchoredLimit (limit this n) = false
       ∧ getLimit (limitToFirst this n) = Ok n
       ∧ hasAnchoredLimit (limitToFirst this n) = true
       ∧ getLimit (limitToLast this n) = Ok n
       ∧ hasAnchoredLimit (limitToLast this n) = true).
Proof.
  intros Hd. split.
  - unfold hasLimit. induction Hd as [|d t Hd IH Harg]; [discriminate |].
    revert IH Harg.
    by_transition t; destruct d; simpl; intros IH Harg; auto.
  - intros this n. by destruct this.
Qed.

Lemma limit_stored_and_anchor_witness :
  let d := limit DEFAULT 3 in
  reachable_validated d
  ∧ (hasLimit d = true → 0 ≤ limit_ d)
  ∧ hasAnchoredLimit d = false.
Proof.
  assert (H : reachable_validated (limit DEFAULT 3)).
  { apply (validated_transition _ (Tlimit 3)); [apply validated_DEFAULT |].
    simpl. intros n [= <-]. lia. }
  destruct (limit_stored_and_anchor _ H) as [Hnonneg Hanchor].
  split; [exact H |].
  split; [exact Hnonneg |].
  exact (proj1 (proj2 (Hanchor DEFAULT 3))).
Defined.

(** C8 as stated fails: [limit] stores any number it is handed, and
    [DEFAULT.limit(-1)] is a reachable descriptor with a limit that is set
    and negative. *)
Lemma limit_negative_reachable :
  reachable (limit DEFAULT (-1))
  ∧ hasLimit (limit DEFAULT (-1)) = true
  ∧ getLimit (limit DEFAULT (-1)) = Ok (-1)
  ∧ ¬ (0 ≤ limit_ (limit DEFAULT (-1))).
Proof.
  split; [apply (reachable_transition _ (Tlimit (-1))), reachable_DEFAULT |].
  split; [reflexivity |].
  split; [reflexivity |].
  simpl. lia.
Qed.

Example limit_after_limitToFirst :
  hasAnchoredLimit (limit (limitToFirst DEFAULT 2) 5) = false.
Proof. reflexivity. Qed.

(** ** REST query string *)

Lemma isDefault_no_limit d : isDefault d = true → hasLimit d = false.
Proof.
  unfold isDefault. intros [Hall _]%andb_true_iff.
  destruct (hasLimit d) eqn:Hlimit; [| done].
  by rewrite (hasLimit_not_loadsAllData _ Hlimit) in Hall.
Qed.

(** The [orderBy] string is always found: the assertion on the index type
    cannot fire. *)
Lemma orderBy_recognized index :
  ∃ orderBy : string,
    (if bool_decide (index = PRIORITY_INDEX) then Ok REST_CONSTANTS.PRIORITY_INDEX
     else if bool_decide (index = VALUE_INDEX) then Ok REST_CONSTANTS.VALUE_INDEX
     else if bool_decide (index = KEY_INDEX) then Ok REST_CONSTANTS.KEY_INDEX
     else assert (instanceof_PathIndex index) "Unrecognized index type!" ;;
          Ok (Index_toString index))
    = Ok orderBy.
Proof. destruct index; simpl; eauto. Qed.

Lemma empty_has_no_token {V} (qs : gmap string V) t :
  has_token qs t → qs ≠ ∅.
Proof. intros [v Hv] ->. by rewrite lookup_empty in Hv. Qed.

(** C6: [toRestQueryStringParameters] always returns; the parameter set is
    empty exactly when [isDefault] holds and carries [orderBy] otherwise;
    with a limit set it carries the raw limit under [limitToFirst] when
    [isViewFromLeft] holds and under [limitToLast] otherwise, never under
    both (and under neither when no limit is set). *)
Theorem toRestQueryStringParameters_spec (stringify : JsVal → string)
    (d : QueryParams) :
  ∃ qs, toRestQueryStringParameters stringify d = Ok qs
    ∧ (qs = ∅ ↔ isDefault d = true)
    ∧ (isDefault d = false → has_token qs "orderBy")
    ∧ (hasLimit d = true → isViewFromLeft d = true →
         qs !! "limitToFirst" = Some (RestNumber (limit_ d))
         ∧ qs !! "limitToLast" = None)
    ∧ (hasLimit d = true → isViewFromLeft d = false →
         qs !! "limitToLast" = Some (RestNumber (limit_ d))
         ∧ qs !! "limitToFirst" = None)
    ∧ (hasLimit d = false →
         qs !! "limitToFirst" = None ∧ qs !! "limitToLast" = None).
Proof.
  unfold toRestQueryStringParameters.
  destruct (isDefault d) eqn:Hdefault.
  - exists ∅. apply isDefault_no_limit in Hdefault as ->.
    repeat split; done.
  - destruct (orderBy_recognized (index_ d)) as [orderBy ->].
    cbn [mbind result_bind].
    eexists. split; [reflexivity |].
    match goal with |- (?qs = ∅ ↔ _) ∧ _ => set (params := qs) end.
    assert (has_token params "orderBy") as Horder.
    { unfold params, has_token, append_to.
      destruct (isViewFromLeft d); split_flags d; by eexists. }
    split.
    { split; [| done]. intros Hempty. by apply empty_has_no_token in Horder. }
    split; [done |].
    unfold params, hasLimit, append_to.
    destruct (isViewFromLeft d); split_flags d;
      repeat split; intros; done.
Qed.

Example toRest_DEFAULT stringify :
  toRestQueryStringParameters stringify DEFAULT = Ok ∅.
Proof. reflexivity. Qed.

Example toRest_value_index stringify :
  toRestQueryStringParameters stringify (orderBy DEFAULT VALUE_INDEX)
  = Ok {[ "orderBy" := RestString (stringify (VStr "$value")) ]}.
Proof. reflexivity. Qed.

Example toRest_example_1 stringify :
  toRestQueryStringParameters stringify
    (limitToFirst (endAt (startAt DEFAULT (VNum 5) (KeyString "k1"))
                         (VNum 10) KeyUndefined) 3)
  = Ok {[ "orderBy" := RestString (stringify (VStr "$priority"));
          "startAt" := RestString (stringify (VNum 5) +:+ "," +:+ stringify (VStr "k1"));
          "endAt" := RestString (stringify (VNum 10));
          "limitToFirst" := RestNumber 3 ]}.
Proof. reflexivity. Qed.

(** ** Accessors *)

Lemma guarded_fails_iff {A} (flag : bool) (message : string) (k : result A) :
  succeeds k →
  (fails (assert flag message ;; k) ↔ flag = false)
  ∧ (succeeds (assert flag message ;; k) ↔ flag = true).
Proof.
  intros [a ->]. unfold fails, succeeds.
  destruct flag; simpl; repeat split; try done; try by eauto.
  - by intros [? [=]].
  - by intros [? [=]].
Qed.

Lemma toRestQueryStringParameters_succeeds stringify d :
  succeeds (toRestQueryStringParameters stringify d).
Proof.
  unfold succeeds, toRestQueryStringParameters.
  destruct (isDefault d); [by eexists |].
  destruct (orderBy_recognized (index_ d)) as [orderBy ->].
  by eexists.
Qed.

(** C7: each of [getIndexStartValue], [getIndexStartName],
    [getIndexEndValue], [getIndexEndName] and [getLimit] fails on its
    assertion exactly when [hasStart], [hasEnd], [hasLimit] respectively is
    false, and returns when it is true.  The one other assertion of the
    class, on the index type in [toRestQueryStringParameters], never fires;
    the remaining operations have no failing path and are plain functions
    here. *)
Theorem accessors_fail_iff_unset (stringify : JsVal → string) (d : QueryParams) :
  ((fails (getIndexStartValue d) ↔ hasStart d = false)
   ∧ (succeeds (getIndexStartValue d) ↔ hasStart d = true))
  ∧ ((fails (getIndexStartName d) ↔ hasStart d = false)
     ∧ (succeeds (getIndexStartName d) ↔ hasStart d = true))
  ∧ ((fails (getIndexEndValue d) ↔ hasEnd d = false)
     ∧ (succeeds (getIndexEndValue d) ↔ hasEnd d = true))
  ∧ ((fails (getIndexEndName d) ↔ hasEnd d = false)
     ∧ (succeeds (getIndexEndName d) ↔ hasEnd d = true))
  ∧ ((fails (getLimit d) ↔ hasLimit d = false)
     ∧ (succeeds (getLimit d) ↔ hasLimit d = true))
  ∧ succeeds (toRestQueryStringParameters stringify d).
Proof.
  unfold getIndexStartValue, getIndexStartName, getIndexEndValue,
    getIndexEndName, getLimit, hasStart, hasEnd, hasLimit.
  repeat (split; [apply guarded_fails_iff; unfold succeeds;
                  try destruct (startNameSet_ d);
                  try destruct (endNameSet_ d); by eauto |]).
  apply toRestQueryStringParameters_succeeds.
Qed.

Example getIndexStartValue_DEFAULT :
  getIndexStartValue DEFAULT = AssertionError "Only valid if start has been set".
Proof. reflexivity. Qed.

Example accessors_example_1 :
  let d := limitToFirst (endAt (startAt DEFAULT (VNum 5) (KeyString "k1"))
                               (VNum 10) KeyUndefined) 3 in
  getIndexStartValue d = Ok (VNum 5)
  ∧ getIndexStartName d = Ok (KeyString "k1")
  ∧ getIndexEndValue d = Ok (VNum 10)
  ∧ getIndexEndName d = Ok (KeyString MAX_NAME)
  ∧ getLimit d = Ok 3
  ∧ isViewFromLeft d = true.
Proof. by repeat split. Qed.

(** ** The receiver is left alone *)

Lemma run_allocate {B} (k : nat → run B) (σ : store) :
  (allocate ≫= k) σ = k (fresh (dom σ)) (<[fresh (dom σ) := new_QueryParams]> σ).
Proof. reflexivity. Qed.

Lemma run_load {A B} (field : QueryParams → A) (k : A → run B)
    (σ : store) this q :
  σ !! this = Some q → (load this field ≫= k) σ = k (field q) σ.
Proof. intros H. unfold mbind, run_bind, load. by rewrite H. Qed.

Lemma run_assign_field {B} assign (k : unit → run B) (σ : store) object q :
  (assign_field object assign ≫= k) (<[object := q]> σ)
  = k tt (<[object := assign q]> σ).
Proof.
  unfold mbind, run_bind, assign_field.
  by rewrite lookup_insert_eq, insert_insert_eq.
Qed.

Lemma fresh_is_not (σ : store) this q :
  σ !! this = Some q → fresh (dom σ) ≠ this.
Proof.
  intros H Heq. apply (is_fresh (dom σ)). rewrite Heq.
  apply elem_of_dom. by eexists.
Qed.

Lemma run_bind_assoc {A B C} (m : run A) (f : A → run B) (g : B → run C)
    (σ : store) :
  ((m ≫= f) ≫= g) σ = (m ≫= λ a, f a ≫= g) σ.
Proof.
  unfold mbind, run_bind. by destruct (m σ) as [[a σ'] |].
Qed.

Lemma run_load_other {A B} (field : QueryParams → A) (k : A → run B)
    (σ : store) this q other x :
  other ≠ this → σ !! this = Some q →
  (load this field ≫= k) (<[other := x]> σ) = k (field q) (<[other := x]> σ).
Proof. intros Hne H. apply run_load. by rewrite lookup_insert_ne. Qed.

(** [Stored.copy_] allocates one instance, fills it as [copy_] says, and
    writes nowhere else. *)
Lemma Stored_copy_run (σ : store) this q :
  σ !! this = Some q →
  Stored.copy_ this σ
  = Some (fresh (dom σ), <[fresh (dom σ) := copy_ q]> σ).
Proof.
  intros H. pose proof (fresh_is_not _ _ _ H) as Hfresh.
  unfold Stored.copy_. rewrite run_allocate.
  repeat (rewrite (run_load_other _ _ _ _ _ _ _ Hfresh H), run_assign_field).
  reflexivity.
Qed.

Lemma run_copy_ {B} (k : nat → run B) (σ : store) this q :
  σ !! this = Some q →
  (Stored.copy_ this ≫= k) σ
  = k (fresh (dom σ)) (<[fresh (dom σ) := copy_ q]> σ).
Proof.
  intros H.
  change ((Stored.copy_ this ≫= k) σ)
    with (match Stored.copy_ this σ with
          | Some (a, σ') => k a σ'
          | None => None
          end).
  by rewrite (Stored_copy_run _ _ _ H).
Qed.

(** Run on the address of [q], a transition allocates one instance, leaves
    it holding what the transition on field values computes from [q], and
    returns its address. *)
Lemma Stored_transition_run (σ : store) this q t :
  σ !! this = Some q →
  Stored.transition this t σ
  = Some (fresh (dom σ), <[fresh (dom σ) := transition q t]> σ).
Proof.
  intros H.
  destruct t as [? key | ? key | ? | ? | ? | index | filter option | pipeline]; simpl;
    unfold Stored.startAt, Stored.endAt, Stored.limit, Stored.limitToFirst,
      Stored.limitToLast, Stored.orderBy, Stored.find, Stored.aggregate;
    rewrite (run_copy_ _ _ _ _ H);
    try destruct key; simpl;
    rewrite ?run_assign_field, ?run_bind_assoc, ?run_assign_field;
    reflexivity.
Qed.

(** X1: run on the address of an instance, a transition returns: it
    allocates one instance at an address that held nothing, leaves it
    holding what the transition on field values computes from the receiver,
    and changes neither the receiver nor any other instance that was
    there. *)
Theorem transition_leaves_receiver (σ : store) this q t :
  σ !! this = Some q →
  ∃ result σ',
    Stored.transition this t σ = Some (result, σ')
    ∧ σ !! result = None
    ∧ σ' !! result = Some (transition q t)
    ∧ σ' !! this = Some q
    ∧ (∀ other, other ≠ result → σ' !! other = σ !! other)
    ∧ dom σ' = {[ result ]} ∪ dom σ.
Proof.
  intros H.
  exists (fresh (dom σ)), (<[fresh (dom σ) := transition q t]> σ).
  split; [by apply Stored_transition_run |].
  split; [apply not_elem_of_dom, is_fresh |].
  split; [apply lookup_insert_eq |].
  split; [rewrite lookup_insert_ne; [done | by eapply fresh_is_not] |].
  split; [| apply dom_insert_L].
  intros other Hother. by rewrite lookup_insert_ne.
Qed.

(** ** What a transition keeps *)

(** Every field that the transition does not assign keeps its value, with
    one exception: [aggregateSet_], which [copy_] does not carry over. *)
Lemma transition_frame d t f :
  f ∉ overwrites t → f ≠ F_aggregateSet_ → same_field f d (transition d t).
Proof.
  intros Hkept Hnot.
  by_transition t; destruct d; destruct f; simpl in *; try done;
    exfalso; apply Hkept; rewrite !elem_of_cons; auto 6.
Qed.

(** A find mode, flag and payload, survives every later transition. *)
Lemma find_mode_survives d t :
  (∀ filter option, t ≠ Tfind filter option) →
  findSet_ (transition d t) = findSet_ d
  ∧ findFilter_ (transition d t) = findFilter_ d
  ∧ findOption_ (transition d t) = findOption_ d.
Proof.
  intros Hnot. by_transition t; destruct d; simpl; try done.
  by destruct (Hnot filter option).
Qed.

(** The aggregate flag is set after [aggregate] and clear after anything
    else, whatever it was before; the pipeline is carried over. *)
Lemma aggregateSet_after_transition d t :
  aggregateSet_ (transition d t)
  = match t with Taggregate _ => true | _ => false end.
Proof. by_transition t; by destruct d. Qed.

Lemma aggregatePipeline_survives d t :
  (∀ pipeline, t ≠ Taggregate pipeline) →
  aggregatePipeline_ (transition d t) = aggregatePipeline_ d.
Proof.
  intros Hnot. by_transition t; destruct d; simpl; try done.
  by destruct (Hnot pipeline).
Qed.

(** C4, at [DEFAULT.aggregate(p).limit(3)]: the aggregate mode set by
    [aggregate] is gone after [limit]. The pipeline is still stored, but its
    flag is back to unset, so the mode is neither reported nor rendered. *)
Theorem aggregate_flag_lost_by_copy :
  let d := aggregate DEFAULT (VStr "pipeline") in
  aggregateSet_ d = true
  ∧ aggregateSet_ (limit d 3) = false
  ∧ aggregatePipeline_ (limit d 3) = VStr "pipeline"
  ∧ hasMongo d = true
  ∧ hasMongo (limit d 3) = false
  ∧ getMongoObject d !! "a" = Some (VStr "pipeline")
  ∧ getMongoObject (limit d 3) !! "a" = None.
Proof. by repeat split. Qed.

Example find_kept_by_limit :
  let d := find DEFAULT (VStr "filter") (VStr "option") in
  findSet_ (limit d 3) = true
  ∧ getMongoObject (limit d 3) = getMongoObject d.
Proof. by split. Qed.

(** ** Tie-break keys *)

Lemma startAt_key d v key :
  getIndexStartName (startAt d v key)
  = Ok (match key with
        | KeyString k => KeyString k
        | KeyNull | KeyUndefined => KeyString MIN_NAME
        end).
Proof. destruct key; by destruct d. Qed.

Lemma endAt_key d v key :
  getIndexEndName (endAt d v key)
  = Ok (match key with
        | KeyString k => KeyString k
        | KeyNull => KeyNull
        | KeyUndefined => KeyString MAX_NAME
        end).
Proof. destruct key; by destruct d. Qed.

(** C5, at [DEFAULT.endAt(10, null)]: [endAt] keeps a [null] key as the
    tie-break key, so [getIndexEndName] returns [null] and the wire object
    carries [en] with [null]; an omitted key does give [MAX_NAME], and
    [startAt] with [null] gives [MIN_NAME]. *)
Theorem endAt_null_key_is_kept :
  getIndexEndName (endAt DEFAULT (VNum 10) KeyNull) = Ok KeyNull
  ∧ endNameSet_ (endAt DEFAULT (VNum 10) KeyNull) = true
  ∧ getQueryObject (endAt DEFAULT (VNum 10) KeyNull) !! "en" = Some VNull
  ∧ getIndexEndName (endAt DEFAULT (VNum 10) KeyUndefined) = Ok (KeyString MAX_NAME)
  ∧ getIndexStartName (startAt DEFAULT (VNum 10) KeyNull) = Ok (KeyString MIN_NAME)
  ∧ startNameSet_ (startAt DEFAULT (VNum 10) KeyNull) = false.
Proof. by repeat split. Qed.

(** * Further properties *)

(** ** Frames along a chain of calls *)

Lemma overwrites_group t f : f ∈ overwrites t → field_group f = group t.
Proof.
  destruct t; simpl; rewrite ?elem_of_cons, elem_of_nil;
    intros H; repeat destruct H as [-> | H]; done.
Qed.

Lemma same_field_trans f d1 d2 d3 :
  same_field f d1 d2 → same_field f d2 d3 → same_field f d1 d3.
Proof. destruct f; simpl; congruence. Qed.

Lemma same_field_refl f d : same_field f d d.
Proof. by destruct f. Qed.

Lemma transitions_cons d t ts :
  transitions d (t :: ts) = transitions (transition d t) ts.
Proof. reflexivity. Qed.

(** A property kept by every call of a chain is kept by the chain. *)
Lemma transitions_preserve (P : QueryParams → Prop) (Q : Transition → Prop) :
  (∀ d t, Q t → P d → P (transition d t)) →
  ∀ ts d, Forall Q ts → P d → P (transitions d ts).
Proof.
  intros Hstep ts. induction ts as [|t ts IH]; intros d Hts Hd; [done |].
  apply Forall_cons in Hts as [Ht Hts].
  rewrite transitions_cons. apply IH; [done |]. by apply Hstep.
Qed.

Lemma transition_frame_groups d t f :
  group t ≠ field_group f → f ≠ F_aggregateSet_ →
  same_field f d (transition d t).
Proof.
  intros Hgroup Hf. apply transition_frame; [| done].
  intros Hin%overwrites_group. congruence.
Qed.

(** X2: along any chain of calls, a field keeps its value as long as no call
    of the chain belongs to the field's group; the one field this does not
    hold for is [aggregateSet_]. *)
Theorem transitions_keep_other_groups (d : QueryParams) (ts : list Transition)
    (f : Field) :
  Forall (λ t, group t ≠ field_group f) ts →
  f ≠ F_aggregateSet_ →
  same_field f d (transitions d ts).
Proof.
  intros Hts Hf.
  apply (transitions_preserve (same_field f d) (λ t, group t ≠ field_group f));
    [| done | apply same_field_refl].
  intros d' t Ht Hd'.
  eapply same_field_trans; [exact Hd' |].
  by apply transition_frame_groups.
Qed.

Lemma transitions_keep_other_groups_witness :
  same_field F_indexStartValue_
    (startAt DEFAULT (VNum 5) KeyUndefined)
    (transitions (startAt DEFAULT (VNum 5) KeyUndefined)
       [Tlimit 3; TendAt (VNum 9) KeyUndefined; TorderBy KEY_INDEX]).
Proof.
  apply (transitions_keep_other_groups
           (startAt DEFAULT (VNum 5) KeyUndefined)
           [Tlimit 3; TendAt (VNum 9) KeyUndefined; TorderBy KEY_INDEX]
           F_indexStartValue_).
  - repeat constructor; simpl; discriminate.
  - discriminate.
Defined.

(** ** How calls compose *)

(** X3: a call overrides an earlier call of the same group entirely: calling
    [t1] and then [t2] of the same group gives the very descriptor that [t2]
    alone gives. *)
Theorem later_call_overrides (d : QueryParams) (t1 t2 : Transition) :
  group t1 = group t2 →
  transition (transition d t1) t2 = transition d t2.
Proof.
  intros Hgroup.
  destruct t1 as [? key1 | ? key1 | ? | ? | ? | ? | ? ? | ?];
    destruct t2 as [? key2 | ? key2 | ? | ? | ? | ? | ? ? | ?];
    try discriminate Hgroup; clear Hgroup;
    unfold transition, startAt, endAt, limit, limitToFirst, limitToLast,
      orderBy, find, aggregate;
    rewrite ?copy_unfold;
    try destruct key1; try destruct key2; by destruct d.
Qed.

Lemma later_call_overrides_witness :
  transition (transition DEFAULT (TlimitToFirst 2)) (Tlimit 5)
  = transition DEFAULT (Tlimit 5).
Proof.
  apply (later_call_overrides DEFAULT (TlimitToFirst 2) (Tlimit 5)).
  reflexivity.
Defined.

(** X4: two calls of different groups, neither of them [aggregate], can be
    made in either order. *)
Theorem calls_of_different_groups_commute (d : QueryParams) (t1 t2 : Transition) :
  group t1 ≠ group t2 →
  group t1 ≠ G_aggregate →
  group t2 ≠ G_aggregate →
  transition (transition d t1) t2 = transition (transition d t2) t1.
Proof.
  intros Hgroup H1 H2.
  destruct t1 as [? key1 | ? key1 | ? | ? | ? | ? | ? ? | ?];
    destruct t2 as [? key2 | ? key2 | ? | ? | ? | ? | ? ? | ?];
    try (by destruct Hgroup); try (by destruct H1); try (by destruct H2);
    clear Hgroup H1 H2;
    unfold transition, startAt, endAt, limit, limitToFirst, limitToLast,
      orderBy, find, aggregate;
    rewrite ?copy_unfold;
    try destruct key1; try destruct key2; by destruct d.
Qed.

Lemma calls_of_different_groups_commute_witness :
  transition (transition DEFAULT (TstartAt (VNum 5) (KeyString "k1"))) (Tlimit 3)
  = transition (transition DEFAULT (Tlimit 3)) (TstartAt (VNum 5) (KeyString "k1")).
Proof.
  apply (calls_of_different_groups_commute DEFAULT
           (TstartAt (VNum 5) (KeyString "k1")) (Tlimit 3)); discriminate.
Defined.

(** ** Reading back what a call stored *)

Lemma transitions_frame_group g d ts :
  Forall (λ t, group t ≠ g) ts →
  ∀ f, field_group f = g → f ≠ F_aggregateSet_ →
       same_field f d (transitions d ts).
Proof.
  intros Hts f <- Hf.
  apply (transitions_preserve (same_field f d) (λ t, group t ≠ field_group f));
    [| done | apply same_field_refl].
  intros d' t Ht Hd'.
  eapply same_field_trans; [exact Hd' |].
  by apply transition_frame_groups.
Qed.

Lemma startAt_fields d v key :
  startSet_ (startAt d v key) = true
  ∧ indexStartValue_ (startAt d v key) = stored_value v
  ∧ startNameSet_ (startAt d v key) = loosely_not_null key
  ∧ indexStartName_ (startAt d v key)
    = (if loosely_not_null key then key else KeyString "").
Proof. destruct key; by destruct d. Qed.

Lemma endAt_fields d v key :
  endSet_ (endAt d v key) = true
  ∧ indexEndValue_ (endAt d v key) = stored_value v
  ∧ endNameSet_ (endAt d v key) = strictly_not_undefined key
  ∧ indexEndName_ (endAt d v key)
    = (if strictly_not_undefined key then key else KeyString "").
Proof. destruct key; by destruct d. Qed.

(** X5: whatever calls follow a [startAt v key], short of another [startAt],
    the start bound reads back as given: the value (with [undefined] turned
    into [null]), and as name the key if it was a string and [MIN_NAME] if
    it was [null] or omitted; the wire object carries them under [sp] and,
    for a string key only, [sn]. *)
Theorem start_bound_read_back (d : QueryParams) (v : JsVal) (key : Key)
    (ts : list Transition) :
  Forall (λ t, group t ≠ G_start) ts →
  hasStart (transitions (startAt d v key) ts) = true
  ∧ getIndexStartValue (transitions (startAt d v key) ts) = Ok (stored_value v)
  ∧ getIndexStartName (transitions (startAt d v key) ts)
    = Ok (KeyString (match key with KeyString k => k | _ => MIN_NAME end))
  ∧ getQueryObject (transitions (startAt d v key) ts) !! "sp"
    = Some (stored_value v)
  ∧ getQueryObject (transitions (startAt d v key) ts) !! "sn"
    = match key with KeyString k => Some (VStr k) | _ => None end.
Proof.
  intros Hts.
  pose proof (transitions_frame_group G_start (startAt d v key) ts Hts) as Hkept.
  pose proof (Hkept F_startSet_ eq_refl ltac:(done)) as Hset.
  pose proof (Hkept F_indexStartValue_ eq_refl ltac:(done)) as Hvalue.
  pose proof (Hkept F_startNameSet_ eq_refl ltac:(done)) as Hnameset.
  pose proof (Hkept F_indexStartName_ eq_refl ltac:(done)) as Hname.
  cbn [same_field] in Hset, Hvalue, Hnameset, Hname.
  destruct (startAt_fields d v key) as (Es & Ev & Ens & En).
  rewrite Es in Hset. rewrite Ev in Hvalue.
  rewrite Ens in Hnameset. rewrite En in Hname.
  unfold hasStart, getIndexStartValue, getIndexStartName.
  rewrite getQueryObject_sp, getQueryObject_sn.
  rewrite <- Hset, <- Hvalue, <- Hnameset, <- Hname.
  by destruct key.
Qed.

Lemma start_bound_read_back_witness :
  getIndexStartName
    (transitions (startAt DEFAULT (VNum 5) (KeyString "k1"))
       [Tlimit 3; TendAt (VNum 9) KeyNull; Tfind VUndefined VUndefined])
  = Ok (KeyString "k1").
Proof.
  refine (proj1 (proj2 (proj2
            (start_bound_read_back DEFAULT (VNum 5) (KeyString "k1")
               [Tlimit 3; TendAt (VNum 9) KeyNull; Tfind VUndefined VUndefined]
               _)))).
  repeat constructor; simpl; discriminate.
Defined.

(** X6: whatever calls follow an [endAt v key] whose key is a string or
    omitted, short of another [endAt], the end bound reads back as given:
    the value (with [undefined] turned into [null]), and as name the key if
    it was a string and [MAX_NAME] if it was omitted; the wire object
    carries them under [ep] and, for a string key only, [en]. *)
Theorem end_bound_read_back (d : QueryParams) (v : JsVal) (key : Key)
    (ts : list Transition) :
  key ≠ KeyNull →
  Forall (λ t, group t ≠ G_end) ts →
  hasEnd (transitions (endAt d v key) ts) = true
  ∧ getIndexEndValue (transitions (endAt d v key) ts) = Ok (stored_value v)
  ∧ getIndexEndName (transitions (endAt d v key) ts)
    = Ok (KeyString (match key with KeyString k => k | _ => MAX_NAME end))
  ∧ getQueryObject (transitions (endAt d v key) ts) !! "ep"
    = Some (stored_value v)
  ∧ getQueryObject (transitions (endAt d v key) ts) !! "en"
    = match key with KeyString k => Some (VStr k) | _ => None end.
Proof.
  intros Hkey Hts.
  pose proof (transitions_frame_group G_end (endAt d v key) ts Hts) as Hkept.
  pose proof (Hkept F_endSet_ eq_refl ltac:(done)) as Hset.
  pose proof (Hkept F_indexEndValue_ eq_refl ltac:(done)) as Hvalue.
  pose proof (Hkept F_endNameSet_ eq_refl ltac:(done)) as Hnameset.
  pose proof (Hkept F_indexEndName_ eq_refl ltac:(done)) as Hname.
  cbn [same_field] in Hset, Hvalue, Hnameset, Hname.
  destruct (endAt_fields d v key) as (Es & Ev & Ens & En).
  rewrite Es in Hset. rewrite Ev in Hvalue.
  rewrite Ens in Hnameset. rewrite En in Hname.
  unfold hasEnd, getIndexEndValue, getIndexEndName.
  rewrite getQueryObject_ep, getQueryObject_en.
  rewrite <- Hset, <- Hvalue, <- Hnameset, <- Hname.
  by destruct key.
Qed.

Lemma end_bound_read_back_witness :
  getIndexEndName
    (transitions (endAt DEFAULT (VNum 10) KeyUndefined)
       [TstartAt (VNum 5) (KeyString "k1"); TlimitToFirst 3])
  = Ok (KeyString MAX_NAME).
Proof.
  refine (proj1 (proj2 (proj2
            (end_bound_read_back DEFAULT (VNum 10) KeyUndefined
               [TstartAt (VNum 5) (KeyString "k1"); TlimitToFirst 3] _ _)))).
  - discriminate.
  - repeat constructor; simpl; discriminate.
Defined.

Lemma limit_transition_fields d t n :
  limit_argument t = Some n →
  limitSet_ (transition d t) = true
  ∧ limit_ (transition d t) = n
  ∧ viewFrom_ (transition d t)
    = match t with
      | TlimitToFirst _ => WIRE_PROTOCOL_CONSTANTS.VIEW_FROM_LEFT
      | TlimitToLast _ => WIRE_PROTOCOL_CONSTANTS.VIEW_FROM_RIGHT
      | _ => ""
      end.
Proof. destruct t; try discriminate; intros [= ->]; by destruct d. Qed.

(** X7: whatever calls follow a limit call, short of another limit call, the
    limit reads back as given; the descriptor is anchored exactly if the
    call was [limitToFirst] or [limitToLast]; the view is from the left
    after [limitToFirst], from the right after [limitToLast], and after
    [limit] from the left exactly if a start bound is set by then.  The wire
    object carries the limit under [l]. *)
Theorem limit_read_back (d : QueryParams) (t : Transition) (n : Z)
    (ts : list Transition) :
  limit_argument t = Some n →
  Forall (λ t', group t' ≠ G_limit) ts →
  hasLimit (transitions (transition d t) ts) = true
  ∧ getLimit (transitions (transition d t) ts) = Ok n
  ∧ hasAnchoredLimit (transitions (transition d t) ts)
    = match t with Tlimit _ => false | _ => true end
  ∧ isViewFromLeft (transitions (transition d t) ts)
    = match t with
      | TlimitToFirst _ => true
      | TlimitToLast _ => false
      | _ => hasStart (transitions (transition d t) ts)
      end
  ∧ getQueryObject (transitions (transition d t) ts) !! "l" = Some (VNum n).
Proof.
  intros Harg Hts.
  pose proof (transitions_frame_group G_limit (transition d t) ts Hts) as Hkept.
  pose proof (Hkept F_limitSet_ eq_refl ltac:(done)) as Hset.
  pose proof (Hkept F_limit_ eq_refl ltac:(done)) as Hlimit.
  pose proof (Hkept F_viewFrom_ eq_refl ltac:(done)) as Hview.
  cbn [same_field] in Hset, Hlimit, Hview.
  destruct (limit_transition_fields d t n Harg) as (Es & El & Ev).
  rewrite Es in Hset. rewrite El in Hlimit. rewrite Ev in Hview.
  unfold hasLimit, getLimit, hasAnchoredLimit, isViewFromLeft, hasStart.
  rewrite getQueryObject_l.
  rewrite <- Hset, <- Hlimit, <- Hview.
  destruct t; try discriminate Harg; done.
Qed.

Lemma limit_read_back_witness :
  getLimit
    (transitions (transition DEFAULT (Tlimit 3))
       [TstartAt (VNum 5) KeyUndefined; TorderBy VALUE_INDEX])
  = Ok 3
  ∧ isViewFromLeft
      (transitions (transition DEFAULT (Tlimit 3))
         [TstartAt (VNum 5) KeyUndefined; TorderBy VALUE_INDEX])
    = hasStart
        (transitions (transition DEFAULT (Tlimit 3))
           [TstartAt (VNum 5) KeyUndefined; TorderBy VALUE_INDEX]).
Proof.
  assert (Forall (λ t', group t' ≠ G_limit)
            [TstartAt (VNum 5) KeyUndefined; TorderBy VALUE_INDEX]) as Hts.
  { repeat constructor; simpl; discriminate. }
  destruct (limit_read_back DEFAULT (Tlimit 3) 3 _ eq_refl Hts)
    as (_ & Hlimit & _ & Hview & _).
  split; [exact Hlimit | exact Hview].
Defined.

(** X8: whatever calls follow an [orderBy index], short of another
    [orderBy], [getIndex] returns that index, and the wire object carries
    its string form under [i] unless it is the priority index. *)
Theorem index_read_back (d : QueryParams) (index : Index) (ts : list Transition) :
  Forall (λ t, group t ≠ G_index) ts →
  getIndex (transitions (orderBy d index) ts) = index
  ∧ getQueryObject (transitions (orderBy d index) ts) !! "i"
    = (if bool_decide (index = PRIORITY_INDEX) then None
       else Some (VStr (Index_toString index))).
Proof.
  intros Hts.
  pose proof (transitions_frame_group G_index (orderBy d index) ts Hts
                F_index_ eq_refl ltac:(done)) as Hindex.
  cbn [same_field] in Hindex.
  assert (index_ (orderBy d index) = index) as E by by destruct d.
  rewrite E in Hindex.
  unfold getIndex. rewrite getQueryObject_i, <- Hindex. done.
Qed.

Lemma index_read_back_witness :
  getIndex (transitions (orderBy DEFAULT KEY_INDEX)
              [Tlimit 3; TendAt (VNum 9) KeyUndefined])
  = KEY_INDEX.
Proof.
  refine (proj1 (index_read_back DEFAULT KEY_INDEX
                   [Tlimit 3; TendAt (VNum 9) KeyUndefined] _)).
  repeat constructor; simpl; discriminate.
Defined.

(** X9: whatever calls follow a [find filter option], short of another
    [find], the find mode stays set and the wire object carries the filter
    and the option (with [undefined] turned into [null]) under [f] and
    [p]. *)
Theorem find_read_back (d : QueryParams) (filter option : JsVal)
    (ts : list Transition) :
  Forall (λ t, group t ≠ G_find) ts →
  hasMongo (transitions (find d filter option) ts) = true
  ∧ getMongoObject (transitions (find d filter option) ts) !! "f"
    = Some (stored_value filter)
  ∧ getMongoObject (transitions (find d filter option) ts) !! "p"
    = Some (stored_value option)
  ∧ loadsAllData (transitions (find d filter option) ts) = false.
Proof.
  intros Hts.
  pose proof (transitions_frame_group G_find (find d filter option) ts Hts)
    as Hkept.
  pose proof (Hkept F_findSet_ eq_refl ltac:(done)) as Hset.
  pose proof (Hkept F_findFilter_ eq_refl ltac:(done)) as Hfilter.
  pose proof (Hkept F_findOption_ eq_refl ltac:(done)) as Hoption.
  cbn [same_field] in Hset, Hfilter, Hoption.
  assert (findSet_ (find d filter option) = true
          ∧ findFilter_ (find d filter option) = stored_value filter
          ∧ findOption_ (find d filter option) = stored_value option)
    as (Es & Ef & Eo) by by destruct d.
  rewrite Es in Hset. rewrite Ef in Hfilter. rewrite Eo in Hoption.
  unfold hasMongo, loadsAllData.
  rewrite getMongoObject_f, getMongoObject_p.
  rewrite <- Hset, <- Hfilter, <- Hoption.
  by rewrite andb_false_r.
Qed.

Lemma find_read_back_witness :
  getMongoObject
    (transitions (find DEFAULT (VStr "filter") VUndefined)
       [Tlimit 3; TorderBy KEY_INDEX; Taggregate (VStr "pipeline")])
  !! "p" = Some VNull.
Proof.
  refine (proj1 (proj2 (proj2
            (find_read_back DEFAULT (VStr "filter") VUndefined
               [Tlimit 3; TorderBy KEY_INDEX; Taggregate (VStr "pipeline")] _)))).
  repeat constructor; simpl; discriminate.
Defined.

(** ** What is never undone *)

Lemma Forall_any (ts : list Transition) : Forall (λ _, True) ts.
Proof. by apply Forall_forall. Qed.

Lemma flag_stays_set (flag : QueryParams → bool) :
  (∀ d t, flag d = true → flag (transition d t) = true) →
  ∀ d ts, flag d = true → flag (transitions d ts) = true.
Proof.
  intros Hstep d ts Hd.
  apply (transitions_preserve (λ d', flag d' = true) (λ _, True));
    [| apply Forall_any | done].
  intros d' t _. apply Hstep.
Qed.

(** X10: no chain of calls clears a start bound, an end bound, a limit or a
    find mode once set.  So a descriptor with a limit keeps the
    limited-window filter, and a descriptor with any of the four never loads
    all data, nor is default, again. *)
Theorem set_flags_stay_set (d : QueryParams) (ts : list Transition) :
  (hasStart d = true → hasStart (transitions d ts) = true)
  ∧ (hasEnd d = true → hasEnd (transitions d ts) = true)
  ∧ (hasLimit d = true →
       hasLimit (transitions d ts) = true
       ∧ getNodeFilter (transitions d ts) = LimitedFilter (transitions d ts))
  ∧ (findSet_ d = true → findSet_ (transitions d ts) = true)
  ∧ (hasStart d || hasEnd d || hasLimit d || findSet_ d = true →
       loadsAllData (transitions d ts) = false
       ∧ isDefault (transitions d ts) = false).
Proof.
  assert (hasStart d = true → hasStart (transitions d ts) = true) as Hstart.
  { apply (flag_stays_set hasStart). intros d' t.
    unfold hasStart. by_transition t; by destruct d'. }
  assert (hasEnd d = true → hasEnd (transitions d ts) = true) as Hend.
  { apply (flag_stays_set hasEnd). intros d' t.
    unfold hasEnd. by_transition t; by destruct d'. }
  assert (hasLimit d = true → hasLimit (transitions d ts) = true) as Hlimit.
  { apply (flag_stays_set hasLimit). intros d' t.
    unfold hasLimit. by_transition t; by destruct d'. }
  assert (findSet_ d = true → findSet_ (transitions d ts) = true) as Hfind.
  { apply (flag_stays_set findSet_). intros d' t.
    by_transition t; by destruct d'. }
  split; [done |]. split; [done |].
  split.
  { intros H%Hlimit. split; [done |].
    unfold getNodeFilter. by rewrite (hasLimit_not_loadsAllData _ H), H. }
  split; [done |].
  intros H. unfold isDefault.
  assert (loadsAllData (transitions d ts) = false) as ->; [| done].
  unfold loadsAllData.
  unfold hasStart, hasEnd, hasLimit in *.
  repeat apply orb_true_iff in H as [H | H].
  - by rewrite (Hstart H).
  - rewrite (Hend H). by rewrite orb_true_r.
  - rewrite (Hlimit H). by rewrite !orb_true_r.
  - rewrite (Hfind H). by rewrite andb_false_r.
Qed.

(** ** What reachable descriptors hold *)

Lemma stored_value_defined v : stored_value v ≠ VUndefined.
Proof. by destruct v. Qed.

Lemma stores_no_undefined_transition d t :
  stores_no_undefined d → stores_no_undefined (transition d t).
Proof.
  unfold stores_no_undefined.
  intros (Hsv & Hev & Hff & Hfo & Hap & [s Hsn] & Hen).
  by_transition t; destruct d; simpl in *;
    repeat split; try done; try apply stored_value_defined; eauto.
Qed.

Lemma reachable_stores_no_undefined d : reachable d → stores_no_undefined d.
Proof.
  induction 1 as [|d t _ IH].
  - unfold stores_no_undefined. simpl. repeat split; try done. by exists "".
  - by apply stores_no_undefined_transition.
Qed.

(** X11: a descriptor built from [DEFAULT] holds [undefined] in no field: an
    [undefined] argument is stored as [null].  Its start name is always a
    string, so [getIndexStartName] returns a string whenever it returns;
    and no token of either wire object carries [undefined]. *)
Theorem reachable_has_no_undefined (d : QueryParams) :
  reachable d →
  stores_no_undefined d
  ∧ (hasStart d = true → ∃ s, getIndexStartName d = Ok (KeyString s))
  ∧ (∀ t v, getQueryObject d !! t = Some v → v ≠ VUndefined)
  ∧ (∀ t v, getMongoObject d !! t = Some v → v ≠ VUndefined).
Proof.
  intros Hd%reachable_stores_no_undefined.
  split; [done |].
  destruct Hd as (Hsv & Hev & Hff & Hfo & Hap & [s Hsn] & Hen).
  split; [| split].
  - unfold hasStart, getIndexStartName. intros ->. simpl.
    destruct (startNameSet_ d); [rewrite Hsn |]; eauto.
  - intros t v Hv.
    assert (has_token (getQueryObject d) t) as Ht by by eexists.
    apply getQueryObject_tokens in Ht. rewrite !elem_of_cons in Ht.
    destruct Ht as [-> | [-> | [-> | [-> | [-> | [-> | [-> | Ht]]]]]]];
      [| | | | | | | by apply elem_of_nil in Ht].
    + rewrite getQueryObject_sp in Hv. by destruct (startSet_ d); simplify_eq.
    + rewrite getQueryObject_sn, Hsn in Hv.
      by destruct (startSet_ d && startNameSet_ d); simplify_eq.
    + rewrite getQueryObject_ep in Hv. by destruct (endSet_ d); simplify_eq.
    + rewrite getQueryObject_en in Hv.
      destruct (endSet_ d && endNameSet_ d); simplify_eq.
      by destruct (indexEndName_ d).
    + rewrite getQueryObject_l in Hv. by destruct (limitSet_ d); simplify_eq.
    + rewrite getQueryObject_vf in Hv. by destruct (limitSet_ d); simplify_eq.
    + rewrite getQueryObject_i in Hv. by case_bool_decide; simplify_eq.
  - intros t v Hv.
    assert (has_token (getMongoObject d) t) as Ht by by eexists.
    apply getMongoObject_tokens in Ht. rewrite !elem_of_cons in Ht.
    destruct Ht as [-> | [-> | [-> | Ht]]]; [| | | by apply elem_of_nil in Ht].
    + rewrite getMongoObject_f in Hv. by destruct (findSet_ d); simplify_eq.
    + rewrite getMongoObject_p in Hv. by destruct (findSet_ d); simplify_eq.
    + rewrite getMongoObject_a in Hv. by destruct (aggregateSet_ d); simplify_eq.
Qed.

Lemma reachable_has_no_undefined_witness :
  reachable (find (startAt DEFAULT VUndefined KeyUndefined) VUndefined VUndefined)
  ∧ getQueryObject
      (find (startAt DEFAULT VUndefined KeyUndefined) VUndefined VUndefined)
    !! "sp" ≠ Some VUndefined.
Proof.
  assert (reachable
            (find (startAt DEFAULT VUndefined KeyUndefined) VUndefined VUndefined))
    as H.
  { apply (reachable_transition _ (Tfind VUndefined VUndefined)).
    apply (reachable_transition _ (TstartAt VUndefined KeyUndefined)).
    apply reachable_DEFAULT. }
  split; [exact H |].
  destruct (reachable_has_no_undefined _ H) as (_ & _ & Hwire & _).
  intros Hsp. exact (Hwire "sp" VUndefined Hsp eq_refl).
Defined.

Lemma unset_is_initial_transition d t :
  unset_is_initial d → unset_is_initial (transition d t).
Proof.
  unfold unset_is_initial.
  intros (Hs & He & Hl & Hf & Hsn & Hen).
  by_transition t; destruct d; simpl in *; repeat split; intros; auto;
    try discriminate;
    try (by apply Hs); try (by apply He); try (by apply Hl); try (by apply Hf).
Qed.

(** X12: on a descriptor built from [DEFAULT], the fields behind an unset
    start, end, limit or find flag hold their initial values (so no stale
    bound, limit, anchor or filter hides behind a flag that says unset), and
    a name field whose flag is unset holds the empty string.  In particular
    an anchor is only ever present together with a limit. *)
Theorem reachable_unset_is_initial (d : QueryParams) :
  reachable d →
  unset_is_initial d
  ∧ hasAnchoredLimit d = negb (bool_decide (viewFrom_ d = "")).
Proof.
  intros Hd.
  assert (unset_is_initial d) as Hinit.
  { induction Hd as [|d t _ IH].
    - unfold unset_is_initial. simpl. by repeat split.
    - by apply unset_is_initial_transition. }
  split; [done |].
  destruct Hinit as (_ & _ & Hl & _).
  unfold hasAnchoredLimit.
  destruct (limitSet_ d); [done |].
  destruct Hl as [_ ->]; done.
Qed.

Lemma reachable_unset_is_initial_witness :
  reachable (orderBy (startAt DEFAULT (VNum 5) KeyUndefined) KEY_INDEX)
  ∧ unset_is_initial (orderBy (startAt DEFAULT (VNum 5) KeyUndefined) KEY_INDEX).
Proof.
  assert (reachable (orderBy (startAt DEFAULT (VNum 5) KeyUndefined) KEY_INDEX))
    as H.
  { apply (reachable_transition _ (TorderBy KEY_INDEX)).
    apply (reachable_transition _ (TstartAt (VNum 5) KeyUndefined)).
    apply reachable_DEFAULT. }
  split; [exact H | exact (proj1 (reachable_unset_is_initial _ H))].
Defined.

(** ** More on the REST parameters *)

Lemma isDefault_flags d :
  isDefault d = true →
  startSet_ d = false ∧ endSet_ d = false ∧ limitSet_ d = false
  ∧ findSet_ d = false ∧ aggregateSet_ d = false
  ∧ index_ d = PRIORITY_INDEX.
Proof.
  unfold isDefault, loadsAllData.
  destruct (startSet_ d), (endSet_ d), (limitSet_ d), (findSet_ d),
    (aggregateSet_ d); simpl; try discriminate.
  case_bool_decide; [done | discriminate].
Qed.

Lemma orderBy_value index :
  (if bool_decide (index = PRIORITY_INDEX) then Ok REST_CONSTANTS.PRIORITY_INDEX
   else if bool_decide (index = VALUE_INDEX) then Ok REST_CONSTANTS.VALUE_INDEX
   else if bool_decide (index = KEY_INDEX) then Ok REST_CONSTANTS.KEY_INDEX
   else assert (instanceof_PathIndex index) "Unrecognized index type!" ;;
        Ok (Index_toString index))
  = Ok (orderBy_parameter index).
Proof. by destruct index. Qed.

(** Every parameter of the REST object, key by key. *)
Lemma toRestQueryStringParameters_lookups stringify d :
  ∃ qs, toRestQueryStringParameters stringify d = Ok qs
    ∧ qs !! "orderBy"
      = (if isDefault d then None
         else Some (RestString (stringify (VStr (orderBy_parameter (index_ d))))))
    ∧ qs !! "startAt"
      = (if startSet_ d
         then Some (bound_parameter stringify (indexStartValue_ d)
                      (startNameSet_ d) (indexStartName_ d))
         else None)
    ∧ qs !! "endAt"
      = (if endSet_ d
         then Some (bound_parameter stringify (indexEndValue_ d)
                      (endNameSet_ d) (indexEndName_ d))
         else None)
    ∧ qs !! "limitToFirst"
      = (if limitSet_ d && isViewFromLeft d
         then Some (RestNumber (limit_ d)) else None)
    ∧ qs !! "limitToLast"
      = (if limitSet_ d && negb (isViewFromLeft d)
         then Some (RestNumber (limit_ d)) else None)
    ∧ (∀ t, has_token qs t →
            t ∈ ["orderBy"; "startAt"; "endAt"; "limitToFirst"; "limitToLast"]).
Proof.
  unfold toRestQueryStringParameters.
  destruct (isDefault d) eqn:Hdefault.
  - destruct (isDefault_flags _ Hdefault) as (-> & -> & -> & _).
    exists ∅. repeat split; try done.
    intros t [v Hv]. by rewrite lookup_empty in Hv.
  - rewrite orderBy_value. cbn [mbind result_bind].
    eexists. split; [reflexivity |].
    unfold append_to, bound_parameter.
    repeat split.
    1-5: destruct (isViewFromLeft d); split_flags d; reflexivity.
    intros t.
    destruct (decide (t ∈ ["orderBy"; "startAt"; "endAt"; "limitToFirst";
                          "limitToLast"])) as [| Hn]; [done |].
    rewrite !not_elem_of_cons in Hn.
    destruct Hn as (? & ? & ? & ? & ? & _).
    unfold has_token.
    destruct (isViewFromLeft d); split_flags d;
      rewrite ?lookup_insert_ne by done;
      rewrite lookup_empty; by intros [].
Qed.

(** X15: the REST object spelled out.  Unless the descriptor is default,
    [orderBy] is the stringified sentinel of the index ([$priority],
    [$value], [$key]) or the stringified path of a path index; [startAt] is
    present exactly when a start bound is set and holds the stringified
    value, followed by a comma and the stringified name when the name flag
    is set; [endAt] likewise; and there is no parameter beyond [orderBy],
    [startAt], [endAt], [limitToFirst], [limitToLast]. *)
Theorem rest_parameters_spelled_out (stringify : JsVal → string)
    (d : QueryParams) :
  ∃ qs, toRestQueryStringParameters stringify d = Ok qs
    ∧ (isDefault d = false →
         qs !! "orderBy"
         = Some (RestString (stringify (VStr (orderBy_parameter (index_ d))))))
    ∧ (hasStart d = true →
         qs !! "startAt"
         = Some (bound_parameter stringify (indexStartValue_ d)
                   (startNameSet_ d) (indexStartName_ d)))
    ∧ (hasStart d = false → qs !! "startAt" = None)
    ∧ (hasEnd d = true →
         qs !! "endAt"
         = Some (bound_parameter stringify (indexEndValue_ d)
                   (endNameSet_ d) (indexEndName_ d)))
    ∧ (hasEnd d = false → qs !! "endAt" = None)
    ∧ (∀ t, has_token qs t →
            t ∈ ["orderBy"; "startAt"; "endAt"; "limitToFirst"; "limitToLast"]).
Proof.
  destruct (toRestQueryStringParameters_lookups stringify d)
    as (qs & Hqs & Horder & Hstart & Hend & _ & _ & Hkeys).
  exists qs. unfold hasStart, hasEnd.
  split; [done |].
  split; [by intros Hdefault; rewrite Hdefault in Horder |].
  split; [by intros Hset; rewrite Hset in Hstart |].
  split; [by intros Hset; rewrite Hset in Hstart |].
  split; [by intros Hset; rewrite Hset in Hend |].
  split; [by intros Hset; rewrite Hset in Hend |].
  done.
Qed.

Example rest_of_path_index stringify :
  toRestQueryStringParameters stringify
    (startAt (orderBy DEFAULT (PathIndex "a/b")) (VStr "x") KeyUndefined)
  = Ok {[ "orderBy" := RestString (stringify (VStr "a/b"));
          "startAt" := RestString (stringify (VStr "x")) ]}.
Proof. reflexivity. Qed.

(** X16: the REST object knows nothing of the legacy modes.  Calling [find]
    or [aggregate] on a descriptor that is not default leaves its REST
    object as it was; on a default descriptor it makes the REST object
    consist of [orderBy] alone, with the priority sentinel. *)
Theorem rest_ignores_legacy_modes (stringify : JsVal → string) (d : QueryParams)
    (filter option pipeline : JsVal) :
  toRestQueryStringParameters stringify (find d filter option)
  = (if isDefault d
     then Ok {[ "orderBy" := RestString (stringify (VStr "$priority")) ]}
     else toRestQueryStringParameters stringify d)
  ∧ toRestQueryStringParameters stringify (aggregate d pipeline)
    = (if isDefault d
       then Ok {[ "orderBy" := RestString (stringify (VStr "$priority")) ]}
       else toRestQueryStringParameters stringify d).
Proof.
  assert (isDefault (find d filter option) = false) as Hfind.
  { unfold isDefault, loadsAllData. destruct d; simpl.
    by rewrite andb_false_r. }
  assert (isDefault (aggregate d pipeline) = false) as Haggregate.
  { unfold isDefault, loadsAllData. destruct d; simpl.
    by rewrite andb_false_r. }
  unfold toRestQueryStringParameters at 1 3.
  rewrite Hfind, Haggregate.
  destruct (isDefault d) eqn:Hdefault.
  - destruct (isDefault_flags _ Hdefault) as (Hs & He & Hl & _ & _ & Hi).
    destruct d; simpl in *; subst. by split.
  - unfold toRestQueryStringParameters. rewrite Hdefault.
    destruct d; by split.
Qed.

(** X17: the two serializers agree on a reachable descriptor.  The REST
    object has [startAt] exactly when the wire object has [sp], and [endAt]
    exactly when it has [ep]; it has [limitToFirst] with [n] exactly when
    the wire object has [l] with [n] and [vf] with ["l"], and [limitToLast]
    with [n] exactly when the wire object has [l] with [n] and [vf] with
    ["r"]. *)
Theorem wire_and_rest_agree (stringify : JsVal → string) (d : QueryParams) :
  reachable d →
  ∃ qs, toRestQueryStringParameters stringify d = Ok qs
    ∧ (has_token qs "startAt" ↔ has_token (getQueryObject d) "sp")
    ∧ (has_token qs "endAt" ↔ has_token (getQueryObject d) "ep")
    ∧ (∀ n, qs !! "limitToFirst" = Some (RestNumber n) ↔
            getQueryObject d !! "l" = Some (VNum n)
            ∧ getQueryObject d !! "vf" = Some (VStr "l"))
    ∧ (∀ n, qs !! "limitToLast" = Some (RestNumber n) ↔
            getQueryObject d !! "l" = Some (VNum n)
            ∧ getQueryObject d !! "vf" = Some (VStr "r")).
Proof.
  intros Hanchor%reachable_anchor_is_known.
  destruct (toRestQueryStringParameters_lookups stringify d)
    as (qs & Hqs & _ & Hstart & Hend & Hfirst & Hlast & _).
  exists qs. split; [done |].
  unfold has_token.
  rewrite Hstart, Hend, Hfirst, Hlast.
  rewrite getQueryObject_sp, getQueryObject_ep, getQueryObject_l,
    getQueryObject_vf.
  split; [by destruct (startSet_ d); rewrite <- !not_eq_None_Some |].
  split; [by destruct (endSet_ d); rewrite <- !not_eq_None_Some |].
  unfold isViewFromLeft.
  destruct (limitSet_ d); simpl;
    [| split; intros n; (split; [intros [=] | intros [[=] _]])].
  destruct Hanchor as [H | [H | H]]; rewrite H;
    repeat (case_bool_decide; try done);
    destruct (startSet_ d); simpl; split; intros n;
    (split; [intros [= <-]; by split | intros [[= <-] [=]]; done]).
Qed.

Lemma wire_and_rest_agree_witness :
  reachable (limit (startAt DEFAULT (VNum 5) KeyUndefined) 3)
  ∧ ∃ qs, toRestQueryStringParameters (λ _, "") (limit (startAt DEFAULT (VNum 5) KeyUndefined) 3)
          = Ok qs
          ∧ (has_token qs "startAt" ↔
             has_token (getQueryObject (limit (startAt DEFAULT (VNum 5) KeyUndefined) 3)) "sp").
Proof.
  assert (reachable (limit (startAt DEFAULT (VNum 5) KeyUndefined) 3)) as H.
  { apply (reachable_transition _ (Tlimit 3)).
    apply (reachable_transition _ (TstartAt (VNum 5) KeyUndefined)).
    apply reachable_DEFAULT. }
  split; [exact H |].
  destruct (wire_and_rest_agree (λ _, "") _ H) as (qs & Hqs & Hstart & _).
  exists qs. split; [exact Hqs | exact Hstart].
Defined.

(** ** Default descriptors and full scans *)

(** X13: a descriptor is default exactly when both wire objects are empty,
    and it has a legacy mode exactly when [getMongoObject] is not empty. *)
Theorem default_iff_wire_objects_empty (d : QueryParams) :
  (isDefault d = true ↔ getQueryObject d = ∅ ∧ getMongoObject d = ∅)
  ∧ (hasMongo d = false ↔ getMongoObject d = ∅).
Proof.
  assert (getMongoObject d = ∅ → findSet_ d = false ∧ aggregateSet_ d = false)
    as Hmongo.
  { intros H.
    pose proof (getMongoObject_f d) as Hf.
    pose proof (getMongoObject_a d) as Ha.
    rewrite H, lookup_empty in Hf, Ha.
    by destruct (findSet_ d), (aggregateSet_ d). }
  split; split.
  - intros (Hs & He & Hl & Hf & Ha & Hi)%isDefault_flags.
    destruct d; simpl in *; subst. by split.
  - intros [Hquery [Hf Ha]%Hmongo].
    pose proof (getQueryObject_sp d) as Hsp.
    pose proof (getQueryObject_ep d) as Hep.
    pose proof (getQueryObject_l d) as Hl.
    pose proof (getQueryObject_i d) as Hi.
    rewrite Hquery, lookup_empty in Hsp, Hep, Hl, Hi.
    unfold isDefault, loadsAllData. rewrite Hf, Ha.
    destruct (startSet_ d), (endSet_ d), (limitSet_ d); try done.
    by case_bool_decide.
  - unfold hasMongo. intros [Hf Ha]%orb_false_iff.
    destruct d; simpl in *; by subst.
  - intros [Hf Ha]%Hmongo. unfold hasMongo. by rewrite Hf, Ha.
Qed.

(** X14: of all the calls only [orderBy] can return a descriptor that loads
    all data: after any other call the descriptor does not load all data,
    is not default, and selects the limited-window or the ranged filter. *)
Theorem only_orderBy_keeps_full_scan (d : QueryParams) (t : Transition) :
  group t ≠ G_index →
  loadsAllData (transition d t) = false
  ∧ isDefault (transition d t) = false
  ∧ getNodeFilter (transition d t)
    = (if hasLimit (transition d t)
       then LimitedFilter (transition d t)
       else RangedFilter (transition d t)).
Proof.
  intros Hgroup.
  assert (loadsAllData (transition d t) = false) as Hall.
  { unfold loadsAllData. revert Hgroup.
    by_transition t; destruct d; simpl; intros Hgroup;
      rewrite ?orb_true_r, ?andb_false_r; done. }
  unfold isDefault, getNodeFilter. by rewrite Hall.
Qed.

Lemma only_orderBy_keeps_full_scan_witness :
  getNodeFilter (transition DEFAULT (TendAt (VNum 9) KeyUndefined))
  = RangedFilter (transition DEFAULT (TendAt (VNum 9) KeyUndefined)).
Proof.
  refine (proj2 (proj2 (only_orderBy_keeps_full_scan DEFAULT
                          (TendAt (VNum 9) KeyUndefined) _))).
  discriminate.
Defined.

(** ** Reading a wire object back *)

Lemma Key_value_inj k1 k2 : Key_value k1 = Key_value k2 → k1 = k2.
Proof. destruct k1, k2; simpl; congruence. Qed.

(** The string written under [vf] is ["l"] exactly when the view is from
    the left. *)
Lemma vf_is_left d :
  (if bool_decide (viewFrom_ d = "")
   then (if isViewFromLeft d then "l" else "r")
   else viewFrom_ d) = "l"
  ↔ isViewFromLeft d = true.
Proof.
  unfold isViewFromLeft.
  case_bool_decide as Hunset.
  - by destruct (startSet_ d).
  - unfold WIRE_PROTOCOL_CONSTANTS.VIEW_FROM_LEFT.
    case_bool_decide; split; done.
Qed.

(** X18: the wire object holds all there is to the bounds and the limit: two
    descriptors with the same [getQueryObject] agree on [hasStart],
    [hasEnd], [hasLimit], on what the five accessors return (or that they
    fail), and, when a limit is set, on [isViewFromLeft]. *)
Theorem wire_object_determines_accessors (d d' : QueryParams) :
  getQueryObject d = getQueryObject d' →
  hasStart d = hasStart d'
  ∧ getIndexStartValue d = getIndexStartValue d'
  ∧ getIndexStartName d = getIndexStartName d'
  ∧ hasEnd d = hasEnd d'
  ∧ getIndexEndValue d = getIndexEndValue d'
  ∧ getIndexEndName d = getIndexEndName d'
  ∧ hasLimit d = hasLimit d'
  ∧ getLimit d = getLimit d'
  ∧ (hasLimit d = true → isViewFromLeft d = isViewFromLeft d').
Proof.
  intros H.
  pose proof (f_equal (λ obj : gmap string JsVal, obj !! "sp") H) as Hsp.
  pose proof (f_equal (λ obj : gmap string JsVal, obj !! "sn") H) as Hsn.
  pose proof (f_equal (λ obj : gmap string JsVal, obj !! "ep") H) as Hep.
  pose proof (f_equal (λ obj : gmap string JsVal, obj !! "en") H) as Hen.
  pose proof (f_equal (λ obj : gmap string JsVal, obj !! "l") H) as Hl.
  pose proof (f_equal (λ obj : gmap string JsVal, obj !! "vf") H) as Hvf.
  cbn beta in Hsp, Hsn, Hep, Hen, Hl, Hvf.
  rewrite !getQueryObject_sp in Hsp. rewrite !getQueryObject_sn in Hsn.
  rewrite !getQueryObject_ep in Hep. rewrite !getQueryObject_en in Hen.
  rewrite !getQueryObject_l in Hl. rewrite !getQueryObject_vf in Hvf.
  unfold hasStart, getIndexStartValue, getIndexStartName, hasEnd,
    getIndexEndValue, getIndexEndName, hasLimit, getLimit.
  repeat split.
  - by destruct (startSet_ d), (startSet_ d').
  - destruct (startSet_ d), (startSet_ d'); try discriminate; simpl; congruence.
  - destruct (startSet_ d), (startSet_ d'); try discriminate; [| done].
    simpl in *.
    destruct (startNameSet_ d), (startNameSet_ d'); try discriminate; [| done].
    injection Hsn as Hsn%Key_value_inj. congruence.
  - by destruct (endSet_ d), (endSet_ d').
  - destruct (endSet_ d), (endSet_ d'); try discriminate; simpl; congruence.
  - destruct (endSet_ d), (endSet_ d'); try discriminate; [| done].
    simpl in *.
    destruct (endNameSet_ d), (endNameSet_ d'); try discriminate; [| done].
    injection Hen as Hen%Key_value_inj. congruence.
  - by destruct (limitSet_ d), (limitSet_ d').
  - destruct (limitSet_ d), (limitSet_ d'); try discriminate; simpl; congruence.
  - intros Hlimit. rewrite Hlimit in Hl, Hvf.
    destruct (limitSet_ d'); [| discriminate Hl].
    injection Hvf as Hvf.
    pose proof (vf_is_left d) as Hleft. pose proof (vf_is_left d') as Hleft'.
    rewrite Hvf in Hleft.
    destruct (isViewFromLeft d), (isViewFromLeft d'); try done.
    + symmetry. apply Hleft', Hleft. done.
    + apply Hleft, Hleft'. done.
Qed.

Lemma wire_object_determines_accessors_witness :
  isViewFromLeft (limit (startAt DEFAULT (VNum 5) KeyNull) 3)
  = isViewFromLeft (limitToFirst (startAt DEFAULT (VNum 5) KeyUndefined) 3).
Proof.
  refine (proj2 (proj2 (proj2 (proj2 (proj2 (proj2 (proj2 (proj2
            (wire_object_determines_accessors
               (limit (startAt DEFAULT (VNum 5) KeyNull) 3)
               (limitToFirst (startAt DEFAULT (VNum 5) KeyUndefined) 3)
               _)))))))) _); reflexivity.
Defined.

(** ** More on observer detection *)

(** X19: [isPartialObserver] looks at the members [next], [error] and
    [complete] and at nothing else: two objects that agree on these three
    get the same answer, whatever other members they have. *)
Theorem isPartialObserver_three_members (props props' : gmap string JsVal) :
  (∀ m, m ∈ ["next"; "error"; "complete"] → props !! m = props' !! m) →
  isPartialObserver (VObject props) = isPartialObserver (VObject props').
Proof.
  intros Hagree.
  unfold isPartialObserver, implementsAnyMethods, implementsAnyMethods_loop,
    js_in, js_get.
  cbn [typeof is_null js_props].
  rewrite (Hagree "next"), (Hagree "error"), (Hagree "complete");
    [done | | |]; rewrite !elem_of_cons; auto.
Qed.

Lemma isPartialObserver_three_members_witness :
  isPartialObserver (VObject {[ "next" := VFunction ∅; "name" := VStr "a" ]})
  = isPartialObserver (VObject {[ "next" := VFunction ∅ ]}).
Proof.
  apply (isPartialObserver_three_members
           {[ "next" := VFunction ∅; "name" := VStr "a" ]}
           {[ "next" := VFunction ∅ ]}).
  intros m Hm. rewrite !elem_of_cons in Hm.
  destruct Hm as [-> | [-> | [-> | Hm]]];
    [reflexivity | reflexivity | reflexivity | by apply elem_of_nil in Hm].
Defined.

(** X20: [implementsAnyMethods] depends on which methods are listed, not on
    their order or on repetitions: two lists with the same elements give
    the same answer. *)
Theorem implementsAnyMethods_same_methods (obj : JsVal) (methods methods' : list string) :
  (∀ m, m ∈ methods ↔ m ∈ methods') →
  implementsAnyMethods obj methods = implementsAnyMethods obj methods'.
Proof.
  intros Hsame.
  assert (implementsAnyMethods obj methods = true
          ↔ implementsAnyMethods obj methods' = true) as Hiff.
  { rewrite !implementsAnyMethods_true.
    split; intros (Hty & Hnull & m & Hm & Hcall);
      (split; [done |]; split; [done |]); exists m; split; try done;
      by apply Hsame. }
  destruct (implementsAnyMethods obj methods),
    (implementsAnyMethods obj methods'); try done.
  - symmetry. by apply Hiff.
  - by apply Hiff.
Qed.

Lemma implementsAnyMethods_same_methods_witness :
  implementsAnyMethods (VObject {[ "error" := VFunction ∅ ]})
    ["next"; "error"; "complete"]
  = implementsAnyMethods (VObject {[ "error" := VFunction ∅ ]})
      ["complete"; "error"; "next"; "error"].
Proof.
  apply (implementsAnyMethods_same_methods
           (VObject {[ "error" := VFunction ∅ ]})
           ["next"; "error"; "complete"]
           ["complete"; "error"; "next"; "error"]).
  intros m. rewrite !elem_of_cons, !elem_of_nil. tauto.
Defined.

(** X21: checking a list of methods in two parts: the answer for
    [methods ++ methods'] is the disjunction of the answers for the parts,
    and the answer for no method at all is [false]. *)
Theorem implementsAnyMethods_app (obj : JsVal) (methods methods' : list string) :
  implementsAnyMethods obj (methods ++ methods')
  = implementsAnyMethods obj methods || implementsAnyMethods obj methods'
  ∧ implementsAnyMethods obj [] = false.
Proof.
  split.
  - unfold implementsAnyMethods.
    destruct (negb (bool_decide (typeof obj = "object")) || is_null obj);
      [done |].
    induction methods as [|method rest IH]; [done |].
    simpl. by destruct (js_in method obj && _).
  - unfold implementsAnyMethods. by destruct (_ || _).
Qed.

(** ** More on the store *)

Lemma transition_leaves_receiver_witness :
  ∃ result σ',
    Stored.transition 0%nat (Tlimit 3) {[ 0%nat := DEFAULT ]} = Some (result, σ')
    ∧ σ' !! 0%nat = Some DEFAULT
    ∧ σ' !! result = Some (limit DEFAULT 3).
Proof.
  assert (({[ 0%nat := DEFAULT ]} : store) !! 0%nat = Some DEFAULT) as H.
  { reflexivity. }
  destruct (transition_leaves_receiver {[ 0%nat := DEFAULT ]} 0%nat DEFAULT
              (Tlimit 3) H)
    as (result & σ' & Hrun & _ & Hnew & Hthis & _).
  exists result, σ'.
  split; [exact Hrun |].
  split; [exact Hthis | exact Hnew].
Defined.
